(** * near-whisper: the transcription engine of [whisper_gui.py]

    A shallow embedding of the model cache ([load_model]), the transcription
    runner ([transcribe_audio], [transcribe_multiple_files],
    [transcribe_handler]), the report parser ([export_handler]) and the
    exporter ([export_transcription], [export_batch_results]), with the
    properties the specification states about them.

    Python [str] values are sequences of Unicode code points; they are
    embedded as lists of code points ([N]), so that [str.strip], which
    removes every Unicode white-space character, is embedded exactly. *)

From Stdlib Require Import List NArith ZArith Bool Lia Ascii.
From Stdlib Require String.
Import ListNotations String.StringSyntax.

Set Default Goal Selector "!".
Local Open Scope N_scope.

(** ** Python strings *)

Definition char := N.
Definition str := list char.

(** An ASCII literal of the source, as code points. *)
Definition lit (s : String.string) : str :=
  map N_of_ascii (String.list_ascii_of_string s).
Delimit Scope string_scope with string.
Arguments lit s%_string.

Definition NL : char := 10.    (* '\n' *)
Definition SP : char := 32.    (* ' '  *)
Definition COLON : char := 58. (* ':'  *)
Definition DQUOTE : char := 34.
Definition HYPHEN : char := 45.

Fixpoint str_eqb (a b : str) : bool :=
  match a, b with
  | [], [] => true
  | x :: a', y :: b' => N.eqb x y && str_eqb a' b'
  | _, _ => false
  end.

(** [s.startswith(p)] *)
Fixpoint startswith (p s : str) : bool :=
  match p with
  | [] => true
  | c :: p' =>
      match s with
      | [] => false
      | d :: s' => N.eqb c d && startswith p' s'
      end
  end.

(** [p in s] *)
Fixpoint contains (p s : str) : bool :=
  startswith p s ||
  match s with
  | [] => false
  | _ :: s' => contains p s'
  end.

(** [s.split(c)] for a one-character separator. *)
Fixpoint split_on (c : char) (s : str) : list str :=
  match s with
  | [] => [[]]
  | x :: s' =>
      if N.eqb x c then [] :: split_on c s'
      else match split_on c s' with
           | [] => [[x]]
           | l :: ls => (x :: l) :: ls
           end
  end.

(** [s.split(c, 1)] *)
Fixpoint split_once (c : char) (s : str) : list str :=
  match s with
  | [] => [[]]
  | x :: s' =>
      if N.eqb x c then [[]; s']
      else match split_once c s' with
           | [] => [[x]]
           | l :: ls => (x :: l) :: ls
           end
  end.

(** The characters [str.strip()] removes: those for which CPython's
    [Py_UNICODE_ISSPACE] holds. *)
Definition is_space (c : char) : bool :=
  ((9 <=? c) && (c <=? 13)) || ((28 <=? c) && (c <=? 32))
  || (c =? 133) || (c =? 160) || (c =? 5760)
  || ((8192 <=? c) && (c <=? 8202))
  || (c =? 8232) || (c =? 8233) || (c =? 8239) || (c =? 8287)
  || (c =? 12288).

Fixpoint lstrip (s : str) : str :=
  match s with
  | [] => []
  | c :: s' => if is_space c then lstrip s' else s
  end.

Definition rstrip (s : str) : str := rev (lstrip (rev s)).

(** [s.strip()] *)
Definition strip (s : str) : str := lstrip (rstrip s).

(** [s.replace(a, b)] for a one-character [a]. *)
Definition replace_char (a : char) (b : str) (s : str) : str :=
  flat_map (fun c => if N.eqb c a then b else [c]) s.

(** [c * n] *)
Definition times (c : char) (n : nat) : str := repeat c n.

(** [os.path.basename] on POSIX: what follows the last slash. *)
Definition basename (p : str) : str := last (split_on 47 p) [].

(** *** Numbers in f-strings *)

Definition digit (n : N) : char := 48 + n.

Fixpoint decimal_digits (fuel : nat) (n : N) (acc : str) : str :=
  match fuel with
  | O => acc
  | S fuel' =>
      let acc' := digit (n mod 10) :: acc in
      if N.eqb (n / 10) 0 then acc' else decimal_digits fuel' (n / 10) acc'
  end.

(** [str(n)] for a natural number. *)
Definition decimal (n : N) : str := decimal_digits (S (N.to_nat (N.log2 n))) n [].

(** [f"{x:.2f}"].  A duration is carried in hundredths of a second, that is
    after the rounding of the format; the binary floating-point value itself
    is outside the model. *)
Definition fmt2f (h : Z) : str :=
  let a := Z.to_N (Z.abs h) in
  (if (h <? 0)%Z then [HYPHEN] else [])
  ++ decimal (a / 100) ++ [46] ++ [digit ((a / 10) mod 10); digit (a mod 10)].

(** The two status glyphs, as the source file spells them (three code points
    each). *)
Definition OK_GLYPH : str := [8218; 250; 214].
Definition ERR_GLYPH : str := [8218; 249; 229].

(** ** The external capabilities *)

(** An exception caught by [except Exception as e], as [str(e)]. *)
Definition Exn := str.

Inductive py (T : Type) : Type :=
| Return (x : T)
| Raise (e : Exn).
Arguments Return {T} x.
Arguments Raise {T} e.

Inductive OptVal : Type :=
| VStr (s : str)
| VBool (b : bool).

(** The keyword arguments of [model.transcribe]: a dict, in insertion order. *)
Definition Options := list (str * OptVal).

Fixpoint dict_get {V : Type} (k : str) (d : list (str * V)) : option V :=
  match d with
  | [] => None
  | (k', v) :: d' => if str_eqb k' k then Some v else dict_get k d'
  end.

Record Segment : Type := { seg_end : Z }.

(** What [model.transcribe] returns: a dict whose keys may be absent. *)
Record Result : Type := {
  r_text : option str;
  r_language : option str;
  r_segments : option (list Segment)
}.

(** [whisper.load_model], [model.transcribe] and [torch.cuda.is_available].
    The back end is taken to answer as a function of its arguments. *)
Class Backend : Type := {
  Model : Type;
  whisper_load_model : str -> py Model;
  model_transcribe : Model -> str -> Options -> py Result;
  cuda_is_available : bool
}.

(** ** LocalWhisperGUI *)

(** The fields [model] and [model_name] of the application object, with two
    logs that record the calls made to the back end. *)
Record App `{Backend} : Type := {
  model : option Model;
  model_name : str;
  constructions : list str;
  recognitions : list (str * Options)
}.

Section Engine.
Context `{B : Backend}.

Definition is_none {T : Type} (o : option T) : bool :=
  match o with None => true | Some _ => false end.

(** [self.model is None or self.model_name != model_name] *)
Definition needs_load (a : App) (name : str) : bool :=
  is_none (model a) || negb (str_eqb (model_name a) name).

Definition msg_loaded (name : str) : str :=
  OK_GLYPH ++ lit " Model '" ++ name ++ lit "' loaded successfully!".
Definition msg_already (name : str) : str :=
  OK_GLYPH ++ lit " Model '" ++ name ++ lit "' already loaded".
Definition msg_load_error (e : Exn) : str :=
  ERR_GLYPH ++ lit " Error loading model: " ++ e.

Definition load_model (a : App) (name : str) : App * str :=
  if needs_load a name then
    let a1 := {| model := model a; model_name := name;
                 constructions := constructions a ++ [name];
                 recognitions := recognitions a |} in
    match whisper_load_model name with
    | Return m =>
        ({| model := Some m; model_name := model_name a1;
            constructions := constructions a1;
            recognitions := recognitions a1 |}, msg_loaded name)
    | Raise e => (a1, msg_load_error e)
    end
  else (a, msg_already name).

(** [__init__] *)
Definition init : App :=
  fst (load_model {| model := None; model_name := lit "base";
                     constructions := []; recognitions := [] |} (lit "base")).

(** [if language and language != "Auto-detect": options["language"] = language] *)
Definition language_given (language : option str) : option str :=
  match language with
  | None => None
  | Some l =>
      if negb (str_eqb l []) && negb (str_eqb l (lit "Auto-detect"))
      then Some l else None
  end.

Definition transcribe_options (language : option str) : Options :=
  [(lit "task", VStr (lit "transcribe")); (lit "fp16", VBool cuda_is_available)]
  ++ match language_given language with
     | Some l => [(lit "language", VStr l)]
     | None => []
     end.

Definition msg_transcription_error (e : Exn) : str :=
  ERR_GLYPH ++ lit " Transcription error: " ++ e.

(** [str(e)] of the [AttributeError] raised by [self.model.transcribe] when
    [self.model] is [None]. *)
Definition none_has_no_transcribe : Exn :=
  lit "'NoneType' object has no attribute 'transcribe'".

Definition get_text (r : Result) : str :=
  match r_text r with Some t => t | None => [] end.
Definition get_language (r : Result) : str :=
  match r_language r with Some l => l | None => lit "unknown" end.

(** [result['segments'][-1]['end']] when [result.get("segments")] is truthy. *)
Definition get_duration (r : Result) : option Z :=
  match r_segments r with
  | Some (s :: ss) => Some (seg_end (last ss s))
  | _ => None
  end.

(** What [if result.get("segments"):] adds to the output. *)
Definition duration_line (dur : option Z) : str :=
  match dur with
  | Some d => lit "**Duration:** " ++ fmt2f d ++ lit " seconds" ++ [NL]
  | None => []
  end.

(** The detailed output built by [transcribe_audio]. *)
Definition details_text (transcription detected_language name : str)
    (dur : option Z) : str :=
  lit "**Transcription:**" ++ [NL] ++ transcription ++ [NL; NL]
  ++ lit "**Detected Language:** " ++ detected_language ++ [NL]
  ++ lit "**Model Used:** " ++ name ++ [NL]
  ++ duration_line dur.

Definition format_result (r : Result) (name : str) : str :=
  details_text (get_text r) (get_language r) name (get_duration r).

Definition transcribe_audio (a : App) (audio_path : str)
    (language : option str) (name : str) : App * (str * str) :=
  let a1 := if needs_load a name then fst (load_model a name) else a in
  let options := transcribe_options language in
  match model a1 with
  | None => (a1, ([], msg_transcription_error none_has_no_transcribe))
  | Some m =>
      let a2 := {| model := model a1; model_name := model_name a1;
                   constructions := constructions a1;
                   recognitions := recognitions a1 ++ [(audio_path, options)] |} in
      match model_transcribe m audio_path options with
      | Return r => (a2, (get_text r, format_result r name))
      | Raise e => (a2, ([], msg_transcription_error e))
      end
  end.

(** An entry of the [results] list of a batch. *)
Record Item : Type := {
  it_filename : str;
  it_transcription : str;
  it_details : str
}.

(** [if transcription:] *)
Definition truthy (s : str) : bool :=
  match s with [] => false | _ :: _ => true end.

(** The loop shared by [transcribe_multiple_files] and the batch branch of
    [transcribe_handler]. *)
Fixpoint transcribe_loop (a : App) (paths : list str) (language : option str)
    (name : str) (results : list Item) : App * list Item :=
  match paths with
  | [] => (a, results)
  | audio_path :: rest =>
      let '(a', (transcription, details)) :=
        transcribe_audio a audio_path language name in
      transcribe_loop a' rest language name
        (if truthy transcription
         then results ++ [{| it_filename := basename audio_path;
                             it_transcription := transcription;
                             it_details := details |}]
         else results)
  end.

Definition transcribe_multiple_files (a : App) (audio_files : list str)
    (language : option str) (name : str) : App * list Item :=
  transcribe_loop a audio_files language name [].

Definition DELIMITER : str := times HYPHEN 50.

Definition summary_line (n : nat) : str :=
  OK_GLYPH ++ lit " Processed " ++ decimal (N.of_nat n)
  ++ lit " files successfully" ++ [NL; NL].

Definition file_section (it : Item) : str :=
  lit "FILE: " ++ it_filename it ++ [NL]
  ++ it_details it ++ [NL; NL]
  ++ DELIMITER ++ [NL; NL].

(** The report of the batch branch of [transcribe_handler]. *)
Definition format_batch (results : list Item) : str :=
  fold_left (fun out it => out ++ file_section it) results
            (summary_line (length results)).

Definition msg_no_audio : str :=
  ERR_GLYPH ++ lit " Please upload audio files or record audio".

(** [transcribe_handler]; [audio_files] holds the [name] of each uploaded
    file.  The progress calls and the prints are left out. *)
Definition transcribe_handler (a : App) (audio_files : option (list str))
    (mic_audio : option str) (language : option str) (name : str) : App * str :=
  match mic_audio with
  | Some mic =>
      let '(a', (_, details)) := transcribe_audio a mic language name in
      (a', details)
  | None =>
      match audio_files with
      | None | Some [] => (a, msg_no_audio)
      | Some [audio_path] =>
          let '(a', (_, details)) := transcribe_audio a audio_path language name in
          (a', details)
      | Some audio_paths =>
          let '(a', results) := transcribe_loop a audio_paths language name [] in
          (a', format_batch results)
      end
  end.

End Engine.

(** ** The report parser of [export_handler] *)

(** The dict [current_file]; a key that is absent is [None]. *)
Record FileRec : Type := {
  filename : option str;
  language : option str;
  duration : option str;
  transcription : option str
}.

Definition empty_rec : FileRec :=
  {| filename := None; language := None; duration := None; transcription := None |}.

(** Truth value of the dict: it has at least one key. *)
Definition rec_nonempty (r : FileRec) : bool :=
  negb (is_none (filename r) && is_none (language r)
        && is_none (duration r) && is_none (transcription r)).

Definition get_or_empty (o : option str) : str :=
  match o with Some s => s | None => [] end.

(** [line.split(":", 1)[1]]; the index is in range on every line that
    contains a colon (lemma [after_colon_in_range]). *)
Definition after_colon (line : str) : str := nth 1 (split_once COLON line) [].

Definition SUMMARY_PREFIX : str := OK_GLYPH ++ lit " Processed".

(** One iteration of [for line in lines]; the state is the pair of [results]
    and [current_file]. *)
Definition parse_step (st : list FileRec * FileRec) (line : str)
    : list FileRec * FileRec :=
  let '(results, current_file) := st in
  if startswith (lit "FILE:") line then
    (if rec_nonempty current_file then results ++ [current_file] else results,
     {| filename := Some (strip (skipn 5 line)); language := None;
        duration := None; transcription := None |})
  else if startswith (lit "**Detected Language:") line then
    (results,
     {| filename := filename current_file;
        language := Some (strip (after_colon line));
        duration := duration current_file;
        transcription := transcription current_file |})
  else if startswith (lit "**Duration:") line then
    (results,
     {| filename := filename current_file;
        language := language current_file;
        duration := Some (strip (after_colon line));
        transcription := transcription current_file |})
  else if startswith SUMMARY_PREFIX line then st
  else if startswith DELIMITER line then
    if rec_nonempty current_file then
      (results ++ [{| filename := filename current_file;
                      language := language current_file;
                      duration := duration current_file;
                      transcription :=
                        Some (get_or_empty (transcription current_file)) |}],
       empty_rec)
    else st
  else if rec_nonempty current_file && negb (startswith (lit "**") line)
          && truthy (strip line) then
    (results,
     {| filename := filename current_file;
        language := language current_file;
        duration := duration current_file;
        transcription :=
          Some (get_or_empty (transcription current_file) ++ line ++ [NL]) |})
  else st.

(** The loop over [transcription_text.split('\n')]: the pair of [results] and
    [current_file] when the loop ends. *)
Definition parse_loop (transcription_text : str) : list FileRec * FileRec :=
  fold_left parse_step (split_on NL transcription_text) ([], empty_rec).

(** [results] after the loop: nothing is appended once the loop has ended. *)
Definition parse_records (transcription_text : str) : list FileRec :=
  fst (parse_loop transcription_text).

(** The rows handed to [export_batch_results]. *)
Definition df_row (r : FileRec) : list str :=
  [get_or_empty (filename r); strip (get_or_empty (transcription r));
   get_or_empty (language r); get_or_empty (duration r)].

Definition df_data (results : list FileRec) : list (list str) := map df_row results.

Inductive ReportKind : Type :=
| NothingToExport
| BatchReport
| SingleReport.

(** The two tests at the head of [export_handler]. *)
Definition classify (transcription_text : str) : ReportKind :=
  if negb (truthy transcription_text) then NothingToExport
  else if contains (lit "FILE:") transcription_text
          && contains DELIMITER transcription_text then BatchReport
  else SingleReport.

(** ** The exporter *)

(** The directories and files on disk (path and content, newest first). *)
Record Disk : Type := {
  dirs : list str;
  files : list (str * str)
}.

(** What the host answers during one export call: the two renderings of
    [datetime.now()], the directory [tempfile.mkdtemp()] creates (or the
    error it raises), and the error of [open(filepath, 'w')], if any. *)
Record Host : Type := {
  now_stamp : str;
  now_header : str;
  mkdtemp : py str;
  open_error : option Exn
}.

(** [os.path.join(a, b)] on POSIX. *)
Definition path_join (a b : str) : str :=
  if startswith [47] b then b
  else match rev a with
       | [] => b
       | c :: _ => if N.eqb c 47 then a ++ b else a ++ [47] ++ b
       end.

Definition write_file (d : Disk) (path content : str) : Disk :=
  {| dirs := dirs d; files := (path, content) :: files d |}.

Definition make_dir (d : Disk) (path : str) : Disk :=
  {| dirs := path :: dirs d; files := files d |}.

(** A code point UTF-8 cannot encode: a surrogate. *)
Definition is_surrogate (c : char) : bool := (55296 <=? c) && (c <=? 57343).

(** [f.write(s)] on a file opened with [encoding='utf-8'] raises
    [UnicodeEncodeError], and writes nothing of [s], exactly when [s] holds
    a surrogate.  The storage itself is taken to accept every write. *)
Definition encodable (s : str) : bool :=
  forallb (fun c => negb (is_surrogate c)) s.

(** A sequence of [f.write] calls: what was written, and whether every call
    returned. *)
Fixpoint write_all (chunks : list str) (written : str) : str * bool :=
  match chunks with
  | [] => (written, true)
  | s :: rest =>
      if encodable s then write_all rest (written ++ s) else (written, false)
  end.

(** [export_transcription]; an exception inside [try] is printed and turned
    into [None], and what was written before it stays in the file. *)
Definition export_transcription (d : Disk) (h : Host) (transcription name : str)
    : Disk * option str :=
  if negb (truthy transcription) then (d, None)
  else
    let filename_with_timestamp := name ++ lit "_" ++ now_stamp h ++ lit ".txt" in
    match mkdtemp h with
    | Raise _ => (d, None)
    | Return temp_dir =>
        let d1 := make_dir d temp_dir in
        let filepath := path_join temp_dir filename_with_timestamp in
        match open_error h with
        | Some _ => (d1, None)
        | None =>
            let '(written, finished) :=
              write_all [lit "Transcription - " ++ now_header h ++ [NL];
                         times 61 50 ++ [NL; NL];
                         transcription] [] in
            (write_file d1 filepath written,
             if finished then Some filepath else None)
        end
    end.

Definition CSV_HEADER : str := lit "Filename,Transcription,Language,Duration" ++ [NL].

(** One data row; [None] when [row[0]] raises [IndexError]. *)
Definition csv_row (row : list str) : option str :=
  match row with
  | [] => None
  | r0 :: _ =>
      let transcription :=
        match row with
        | _ :: r1 :: _ => replace_char DQUOTE [DQUOTE; DQUOTE] r1
        | _ => []
        end in
      Some ([DQUOTE] ++ r0 ++ [DQUOTE; 44; DQUOTE] ++ transcription
            ++ [DQUOTE; 44; DQUOTE] ++ nth 2 row []
            ++ [DQUOTE; 44; DQUOTE] ++ nth 3 row [] ++ [DQUOTE; NL])
  end.

(** The [for row in batch_results] loop: what was written, and whether the
    loop ran to its end.  It stops where [row[0]] raises and where the write
    of a line raises. *)
Fixpoint write_rows (rows : list (list str)) (written : str) : str * bool :=
  match rows with
  | [] => (written, true)
  | row :: rest =>
      match csv_row row with
      | None => (written, false)
      | Some line =>
          if encodable line then write_rows rest (written ++ line)
          else (written, false)
      end
  end.

(** [export_batch_results]; [batch_results] is [None] or a list of rows (a
    list has no attribute [empty], so the second test of the guard is false
    for every list).  The header row is a constant without surrogate: its
    write returns. *)
Definition export_batch_results (d : Disk) (h : Host)
    (batch_results : option (list (list str))) (name : str) : Disk * option str :=
  match batch_results with
  | None => (d, None)
  | Some rows =>
      let filename_with_timestamp := name ++ lit "_" ++ now_stamp h ++ lit ".csv" in
      match mkdtemp h with
      | Raise _ => (d, None)
      | Return temp_dir =>
          let d1 := make_dir d temp_dir in
          let filepath := path_join temp_dir filename_with_timestamp in
          match open_error h with
          | Some _ => (d1, None)
          | None =>
              let '(written, finished) := write_rows rows CSV_HEADER in
              (write_file d1 filepath written,
               if finished then Some filepath else None)
          end
      end
  end.

(** [export_handler] *)
Definition export_handler (d : Disk) (h : Host) (transcription_text : str)
    : Disk * option str :=
  match classify transcription_text with
  | NothingToExport => (d, None)
  | BatchReport =>
      export_batch_results d h
        (Some (df_data (parse_records transcription_text)))
        (lit "batch_transcription")
  | SingleReport =>
      export_transcription d h transcription_text (lit "transcription")
  end.

(** ** Notions used to state the properties *)

Section Notions.
Context `{B : Backend}.

(** The handle [self.model] holds when [transcribe_audio] reaches
    [self.model.transcribe], that is after its load step. *)
Definition model_in_use (a : App) (name : str) : option Model :=
  model (if needs_load a name then fst (load_model a name) else a).

(** What [transcribe_audio] returns, given the handle it uses. *)
Definition outcome_with (m : option Model) (audio_path : str)
    (language : option str) (name : str) : str * str :=
  match m with
  | None => ([], msg_transcription_error none_has_no_transcribe)
  | Some m =>
      match model_transcribe m audio_path (transcribe_options language) with
      | Return r => (get_text r, format_result r name)
      | Raise e => ([], msg_transcription_error e)
      end
  end.

(** The entry the batch loop appends for a file whose transcription is
    [out]. *)
Definition item_for (audio_path : str) (out : str * str) : Item :=
  {| it_filename := basename audio_path;
     it_transcription := fst out;
     it_details := snd out |}.

(** The entries a batch keeps: those whose transcription text is non-empty,
    in input order. *)
Definition kept_items (m : option Model) (paths : list str)
    (language : option str) (name : str) : list Item :=
  map (fun p => item_for p (outcome_with m p language name))
      (filter (fun p => truthy (fst (outcome_with m p language name))) paths).

End Notions.

(** A transcription result of the data model: file name, text, detected
    language, duration in hundredths of a second, model identifier. *)
Record TranscriptionResult : Type := {
  tr_filename : str;
  tr_text : str;
  tr_language : str;
  tr_duration : option Z;
  tr_model : str
}.

(** The entry of a batch for a transcription result. *)
Definition item_of (r : TranscriptionResult) : Item :=
  {| it_filename := tr_filename r;
     it_transcription := tr_text r;
     it_details := details_text (tr_text r) (tr_language r) (tr_model r)
                                (tr_duration r) |}.

(** Formatting then parsing: the rows recovered from the report of a batch. *)
Definition roundtrip (R : list TranscriptionResult) : list (list str) :=
  df_data (parse_records (format_batch (map item_of R))).

Definition no_newline (s : str) : Prop := ~ In NL s.

(** A line of transcription text the parser takes as such: not blank and
    without a marker at its head. *)
Definition plain_line (line : str) : bool :=
  truthy (strip line)
  && negb (startswith (lit "FILE:") line)
  && negb (startswith (lit "**") line)
  && negb (startswith SUMMARY_PREFIX line)
  && negb (startswith DELIMITER line).

(** Results whose report the parser reads back: one-line file names,
    languages and model identifiers, and a text made of plain lines. *)
Definition readable (r : TranscriptionResult) : Prop :=
  no_newline (tr_filename r) /\ no_newline (tr_language r)
  /\ no_newline (tr_model r)
  /\ forallb plain_line (split_on NL (tr_text r)) = true.

(** The rows the round-trip law promises: the four fields of each result,
    the duration as its two-decimal rendering. *)
Definition promised_row (r : TranscriptionResult) : list str :=
  [tr_filename r; rstrip (tr_text r); tr_language r;
   match tr_duration r with Some d => fmt2f d | None => [] end].

(** The characters of a rendered number: digits, point and sign. *)
Definition numeric (c : char) : Prop := 45 <= c <= 57.

(** The text holds a line that starts with [p]. *)
Definition has_line_starting (p transcription_text : str) : bool :=
  existsb (startswith p) (split_on NL transcription_text).

(** The lines of the section of a result in a batch report. *)
Definition section_lines (r : TranscriptionResult) : list str :=
  [lit "FILE: " ++ tr_filename r; lit "**Transcription:**"]
  ++ split_on NL (tr_text r)
  ++ [[]; lit "**Detected Language:** " ++ tr_language r;
      lit "**Model Used:** " ++ tr_model r]
  ++ match tr_duration r with
     | Some d => [lit "**Duration:** " ++ fmt2f d ++ lit " seconds"]
     | None => []
     end
  ++ [[]; []; DELIMITER; []].

(** The record the parser builds while it reads those lines. *)
Definition record_of (r : TranscriptionResult) : FileRec :=
  {| filename := Some (strip (SP :: tr_filename r));
     language :=
       Some (strip (after_colon (lit "**Detected Language:** " ++ tr_language r)));
     duration :=
       match tr_duration r with
       | Some d =>
           Some (strip (after_colon
                          (lit "**Duration:** " ++ fmt2f d ++ lit " seconds")))
       | None => None
       end;
     transcription := Some (tr_text r ++ [NL]) |}.

(** No field of the result holds a [FILE:] marker or a rule of 50 hyphens. *)
Definition non_adversarial (r : TranscriptionResult) : bool :=
  forallb (fun f => negb (contains (lit "FILE:") f) && negb (contains DELIMITER f))
          [tr_filename r; tr_text r; tr_language r;
           match tr_duration r with Some d => fmt2f d | None => [] end].

(** *** Sample data *)

(** A line of prose that quotes a marker and a rule. *)
Definition prose_report : str := lit "see FILE: x " ++ DELIMITER.

Definition scenario : list TranscriptionResult :=
  [ {| tr_filename := lit "a.wav"; tr_text := lit "hello";
       tr_language := lit "en"; tr_duration := Some 123%Z;
       tr_model := lit "base" |};
    {| tr_filename := lit "b.wav"; tr_text := lit "world";
       tr_language := lit "en"; tr_duration := Some 250%Z;
       tr_model := lit "base" |} ].

(** A text with an empty line between two sentences. *)
Definition two_paragraphs : list TranscriptionResult :=
  [ {| tr_filename := lit "a.wav";
       tr_text := lit "one" ++ [NL; NL] ++ lit "two";
       tr_language := lit "en"; tr_duration := Some 123%Z;
       tr_model := lit "base" |} ].

(** A back end that knows two models, fails on [bad.wav] and hears nothing
    in [silence.wav]. *)
Definition sample_load (name : str) : py nat :=
  if str_eqb name (lit "base") then Return 0%nat
  else if str_eqb name (lit "small") then Return 1%nat
  else Raise (lit "unknown model").

Definition sample_transcribe (m : nat) (audio_path : str) (o : Options)
    : py Result :=
  if str_eqb (basename audio_path) (lit "bad.wav")
  then Raise (lit "corrupt audio")
  else if str_eqb (basename audio_path) (lit "silence.wav")
  then Return {| r_text := Some []; r_language := Some (lit "en");
                 r_segments := None |}
  else Return {| r_text := Some (lit " hello");
                 r_language := Some (lit "en");
                 r_segments := Some [ {| seg_end := 123%Z |} ] |}.

Definition sample_backend : Backend :=
  {| Model := nat;
     whisper_load_model := sample_load;
     model_transcribe := sample_transcribe;
     cuda_is_available := false |}.

Definition fresh_app `{Backend} : App :=
  {| model := None; model_name := lit "base";
     constructions := []; recognitions := [] |}.

Definition sample_host : Host :=
  {| now_stamp := lit "20240102_030405";
     now_header := lit "2024-01-02 03:04:05";
     mkdtemp := Return (lit "/tmp/tmpabc");
     open_error := None |}.

Definition empty_disk : Disk := {| dirs := []; files := [] |}.

(** A batch report whose last section has lost its delimiter line. *)
Definition unterminated_report : str :=
  lit "FILE: a.wav" ++ [NL] ++ lit "hello" ++ [NL] ++ DELIMITER ++ [NL]
  ++ lit "FILE: b.wav" ++ [NL] ++ lit "world".

(** The transcription result the batch loop works with for a file. *)
Definition result_of (audio_path : str) (r : Result) (name : str)
    : TranscriptionResult :=
  {| tr_filename := basename audio_path;
     tr_text := get_text r;
     tr_language := get_language r;
     tr_duration := get_duration r;
     tr_model := name |}.

(** A text that cannot be encoded: it holds a lone surrogate. *)
Definition surrogate_text : str := lit "bad " ++ [55296] ++ lit " char".

(** A single result whose text quotes a marker and a rule. *)
Definition quoting_result : Result :=
  {| r_text := Some prose_report;
     r_language := Some (lit "en");
     r_segments := None |}.

(** A back end whose texts quote report syntax: [a.wav] dictates a line
    that starts with [FILE:], [prose.wav] gives [quoting_result], [bad.wav]
    fails. *)
Definition quoting_transcribe (m : nat) (audio_path : str) (o : Options)
    : py Result :=
  if str_eqb (basename audio_path) (lit "bad.wav")
  then Raise (lit "corrupt audio")
  else if str_eqb (basename audio_path) (lit "prose.wav")
  then Return quoting_result
  else if str_eqb (basename audio_path) (lit "a.wav")
  then Return {| r_text := Some (lit "hello" ++ [NL] ++ lit "FILE: evil.wav");
                 r_language := Some (lit "en");
                 r_segments := None |}
  else Return {| r_text := Some (lit "world");
                 r_language := Some (lit "en");
                 r_segments := None |}.

Definition quoting_backend : Backend :=
  {| Model := nat;
     whisper_load_model := sample_load;
     model_transcribe := quoting_transcribe;
     cuda_is_available := false |}.

(** ** Further notions *)

Section MoreEngine.
Context `{B : Backend}.

Definition msg_no_audio_provided : str := ERR_GLYPH ++ lit " No audio provided".

(** [process_gradio_audio] *)
Definition process_gradio_audio (a : App) (audio_file : option str)
    : App * (str * str) :=
  match audio_file with
  | None => (a, ([], msg_no_audio_provided))
  | Some f => transcribe_audio a f None (model_name a)
  end.

(** The handle the cache holds, if any, is the one the back end builds for
    the recorded identifier. *)
Definition cache_consistent (a : App) : Prop :=
  forall m, model a = Some m -> whisper_load_model (model_name a) = Return m.

End MoreEngine.

(** Number of occurrences of a character. *)
Definition count_char (c : char) (s : str) : nat :=
  length (filter (N.eqb c) s).

(** Number of lines of a text that start with [p]. *)
Definition count_lines_starting (p transcription_text : str) : nat :=
  length (filter (startswith p) (split_on NL transcription_text)).

(** The CSV line of a parsed record. *)
Definition csv_line (r : FileRec) : str :=
  [DQUOTE] ++ get_or_empty (filename r) ++ [DQUOTE; 44; DQUOTE]
  ++ replace_char DQUOTE [DQUOTE; DQUOTE] (strip (get_or_empty (transcription r)))
  ++ [DQUOTE; 44; DQUOTE] ++ get_or_empty (language r)
  ++ [DQUOTE; 44; DQUOTE] ++ get_or_empty (duration r) ++ [DQUOTE; NL].

(** Every value of the record can be written to the file. *)
Definition rec_encodable (r : FileRec) : Prop :=
  encodable (get_or_empty (filename r)) = true
  /\ encodable (get_or_empty (language r)) = true
  /\ encodable (get_or_empty (duration r)) = true
  /\ encodable (get_or_empty (transcription r)) = true.

(** A line that opens a record or sets a field of one. *)
Definition record_line (line : str) : bool :=
  startswith (lit "FILE:") line
  || startswith (lit "**Detected Language:") line
  || startswith (lit "**Duration:") line.

(** * Properties *)

(** ** Strings *)

Lemma str_eqb_refl (s : str) : str_eqb s s = true.
Proof.
  induction s as [|c s IH]; simpl; [reflexivity|].
  now rewrite N.eqb_refl.
Qed.

Lemma str_eqb_eq (a b : str) : str_eqb a b = true <-> a = b.
Proof.
  split; [|intros ->; apply str_eqb_refl].
  revert b; induction a as [|x a IH]; intros [|y b]; simpl; try easy.
  intros H; apply andb_true_iff in H as [Hx Hab].
  apply N.eqb_eq in Hx; subst; f_equal; auto.
Qed.

Lemma str_eqb_neq (a b : str) : a <> b -> str_eqb a b = false.
Proof.
  intros H; destruct (str_eqb a b) eqn:E; [|reflexivity].
  now apply str_eqb_eq in E.
Qed.

Lemma startswith_app (p s : str) : startswith p (p ++ s) = true.
Proof.
  induction p as [|c p IH]; simpl; [reflexivity|].
  now rewrite N.eqb_refl.
Qed.

Lemma startswith_longer (p q s : str) :
  startswith p s = false -> startswith (p ++ q) s = false.
Proof.
  revert s; induction p as [|c p IH]; intros s; simpl; [discriminate|].
  destruct s as [|d s]; [reflexivity|].
  destruct (N.eqb c d); simpl; auto.
Qed.

Lemma split_on_not_nil (c : char) (s : str) : split_on c s <> [].
Proof.
  induction s as [|x s IH]; simpl; [discriminate|].
  destruct (N.eqb x c); [discriminate|].
  destruct (split_on c s); [contradiction|discriminate].
Qed.

Lemma split_on_app (c : char) (a b : str) :
  split_on c (a ++ c :: b) = split_on c a ++ split_on c b.
Proof.
  induction a as [|x a IH]; simpl.
  - now rewrite N.eqb_refl.
  - destruct (N.eqb x c); simpl; [now rewrite IH|].
    rewrite IH.
    destruct (split_on c a) as [|l ls] eqn:E; [|reflexivity].
    now apply split_on_not_nil in E.
Qed.

Lemma split_on_single (c : char) (s : str) : ~ In c s -> split_on c s = [s].
Proof.
  induction s as [|x s IH]; simpl; intros H; [reflexivity|].
  destruct (N.eqb_spec x c) as [->|_]; [exfalso; auto|].
  rewrite IH; auto.
Qed.

Lemma split_on_line (c : char) (a b : str) :
  ~ In c a -> split_on c (a ++ c :: b) = a :: split_on c b.
Proof.
  intros H; rewrite split_on_app, split_on_single; auto.
Qed.

Lemma concat_split_on (c : char) (s : str) :
  concat (map (fun l => l ++ [c]) (split_on c s)) = s ++ [c].
Proof.
  induction s as [|x s IH]; simpl; [reflexivity|].
  destruct (N.eqb_spec x c) as [->|_]; simpl; [now rewrite IH|].
  destruct (split_on c s) as [|l ls] eqn:E; [now apply split_on_not_nil in E|].
  simpl in *. now rewrite IH.
Qed.

Lemma strip_newline (s : str) : strip (s ++ [NL]) = strip s.
Proof.
  unfold strip, rstrip. now rewrite rev_app_distr.
Qed.

Lemma after_colon_in_range (line : str) :
  In COLON line -> (1 < length (split_once COLON line))%nat.
Proof.
  induction line as [|x s IH]; simpl; [easy|].
  intros H. destruct (N.eqb_spec x COLON) as [->|Hx]; simpl; [lia|].
  destruct H as [H|H]; [congruence|].
  specialize (IH H).
  destruct (split_once COLON s); simpl in *; lia.
Qed.




(** *** The digits of a number *)

Lemma digit_mod_numeric (n : N) : numeric (digit (n mod 10)).
Proof.
  assert (H : n mod 10 < 10) by (apply N.mod_upper_bound; discriminate).
  unfold numeric, digit. revert H. generalize (n mod 10). intros x Hx. lia.
Qed.

Lemma decimal_digits_numeric (fuel : nat) (n : N) (acc : str) :
  Forall numeric acc -> Forall numeric (decimal_digits fuel n acc).
Proof.
  revert n acc; induction fuel as [|fuel IH]; intros n acc H; simpl; [assumption|].
  assert (Hd : numeric (digit (n mod 10))) by apply digit_mod_numeric.
  destruct (N.eqb (n / 10) 0); [now constructor|].
  apply IH; now constructor.
Qed.

Lemma decimal_numeric (n : N) : Forall numeric (decimal n).
Proof. apply decimal_digits_numeric; constructor. Qed.

Lemma fmt2f_numeric (h : Z) : Forall numeric (fmt2f h).
Proof.
  unfold fmt2f.
  repeat (apply Forall_app; split).
  - destruct (h <? 0)%Z; repeat constructor; unfold numeric, HYPHEN; lia.
  - apply decimal_numeric.
  - repeat constructor; unfold numeric; lia.
  - repeat constructor; apply digit_mod_numeric.
Qed.

Lemma numeric_not_in (c : char) (s : str) :
  ~ numeric c -> Forall numeric s -> ~ In c s.
Proof.
  intros Hc Hs Hin. rewrite Forall_forall in Hs. apply Hc, Hs, Hin.
Qed.

(** *** The string operations on small inputs *)

Example decimal_2 : decimal 2 = lit "2".
Proof. reflexivity. Qed.
Example decimal_1234 : decimal 1234 = lit "1234".
Proof. reflexivity. Qed.
Example fmt2f_123 : fmt2f 123 = lit "1.23".
Proof. reflexivity. Qed.
Example fmt2f_250 : fmt2f 250 = lit "2.50".
Proof. reflexivity. Qed.
Example fmt2f_neg : fmt2f (-5) = lit "-0.05".
Proof. reflexivity. Qed.
Example split_on_ex : split_on NL (lit "a" ++ [NL] ++ [NL] ++ lit "b") = [lit "a"; []; lit "b"].
Proof. reflexivity. Qed.
Example split_once_ex : split_once COLON (lit "**A:** x:y") = [lit "**A"; lit "** x:y"].
Proof. reflexivity. Qed.
Example strip_ex : strip (lit "  a b " ++ [NL]) = lit "a b".
Proof. reflexivity. Qed.
Example basename_ex : basename (lit "/tmp/x/a.wav") = lit "a.wav".
Proof. reflexivity. Qed.
Example after_colon_label :
  after_colon (lit "**Detected Language:** en") = lit "** en".
Proof. reflexivity. Qed.
Example summary_line_2 :
  summary_line 2 = OK_GLYPH ++ lit " Processed 2 files successfully" ++ [NL; NL].
Proof. reflexivity. Qed.

(** ** The model cache *)

Section Cache.
Context `{B : Backend}.

Lemma needs_load_same (a : App) (name : str) (m : Model) :
  model a = Some m -> model_name a = name -> needs_load a name = false.
Proof.
  intros Hm Hn. unfold needs_load. rewrite Hm, Hn, str_eqb_refl. reflexivity.
Qed.

Lemma needs_load_other (a : App) (name : str) :
  model_name a <> name -> needs_load a name = true.
Proof.
  intros Hn. unfold needs_load. rewrite (str_eqb_neq _ _ Hn).
  now rewrite orb_true_r.
Qed.

Lemma load_model_success (a : App) (name : str) (m : Model) :
  needs_load a name = true -> whisper_load_model name = Return m ->
  load_model a name =
    ({| model := Some m; model_name := name;
        constructions := constructions a ++ [name];
        recognitions := recognitions a |}, msg_loaded name).
Proof. intros Hn Hm. unfold load_model. now rewrite Hn, Hm. Qed.

Lemma load_model_failure (a : App) (name : str) (e : Exn) :
  needs_load a name = true -> whisper_load_model name = Raise e ->
  load_model a name =
    ({| model := model a; model_name := name;
        constructions := constructions a ++ [name];
        recognitions := recognitions a |}, msg_load_error e).
Proof. intros Hn Hm. unfold load_model. now rewrite Hn, Hm. Qed.

Lemma load_model_fast (a : App) (name : str) :
  needs_load a name = false -> load_model a name = (a, msg_already name).
Proof. intros Hn. unfold load_model. now rewrite Hn. Qed.

(** C7 (what the code does where the claim fails).  When the construction
    of the requested model fails, [load_model] returns the failure status
    with the error text and keeps the handle it had, but the recorded
    identifier is already the requested one: the cache is not left as it
    was.  If a handle was loaded, a second request for the same identifier
    is then answered "already loaded", with no construction. *)
Theorem load_model_failure_renames_cache (a : App) (name : str) (e : Exn) :
  needs_load a name = true ->
  whisper_load_model name = Raise e ->
  let a' := fst (load_model a name) in
  snd (load_model a name) = msg_load_error e
  /\ model a' = model a
  /\ model_name a' = name
  /\ (model a <> None -> load_model a' name = (a', msg_already name)).
Proof.
  intros Hn He a'. subst a'. rewrite (load_model_failure a name e Hn He).
  simpl. repeat split.
  intros Hm. apply load_model_fast.
  destruct (model a) as [m|] eqn:Em; [|contradiction].
  now apply (needs_load_same _ _ m).
Qed.

(** C8 (amended).  From a cache in which identifier [X] is not the active one, two
    calls of [load_model X] in a row, the construction of [X] succeeding,
    construct once: the first call constructs, the second answers "already
    loaded" and constructs nothing.  A following [load_model Y] with [Y]
    distinct from [X] constructs again, and the active handle is then the one
    built for [Y], recorded under [Y]. *)
Theorem load_model_twice_constructs_once
    (a : App) (X Y : str) (hX hY : Model) :
  needs_load a X = true ->
  whisper_load_model X = Return hX ->
  Y <> X ->
  whisper_load_model Y = Return hY ->
  let a1 := fst (load_model a X) in
  let a2 := fst (load_model a1 X) in
  let a3 := fst (load_model a2 Y) in
  snd (load_model a X) = msg_loaded X
  /\ snd (load_model a1 X) = msg_already X
  /\ constructions a2 = constructions a ++ [X]
  /\ model a2 = Some hX /\ model_name a2 = X
  /\ snd (load_model a2 Y) = msg_loaded Y
  /\ constructions a3 = constructions a ++ [X; Y]
  /\ model a3 = Some hY /\ model_name a3 = Y.
Proof.
  intros Hn HX HXY HY a1 a2 a3. subst a3 a2 a1.
  rewrite (load_model_success a X hX Hn HX). cbn [fst snd].
  set (a1 := {| model := Some hX; model_name := X;
                constructions := constructions a ++ [X];
                recognitions := recognitions a |}).
  assert (H1 : needs_load a1 X = false) by now apply (needs_load_same _ _ hX).
  rewrite (load_model_fast a1 X H1). cbn [fst snd].
  assert (H2 : needs_load a1 Y = true).
  { apply needs_load_other. simpl. congruence. }
  rewrite (load_model_success a1 Y hY H2 HY). simpl.
  rewrite <- app_assoc. simpl. repeat split.
Qed.

(** C9.  The options of every recognizer call a transcription job makes are
    those built from its language selector.  With auto-detect ([None] or the
    label "Auto-detect") they hold no "language" entry at all; with an
    explicit language code they hold that code under "language". *)
Theorem auto_detect_omits_language
    (a : App) (audio_path : str) (language : option str) (name : str) :
  let a' := fst (transcribe_audio a audio_path language name) in
  let opts := transcribe_options language in
  recognitions a' =
    recognitions a ++ (if is_none (model a') then [] else [(audio_path, opts)])
  /\ (language = None \/ language = Some (lit "Auto-detect") ->
      dict_get (lit "language") opts = None)
  /\ (forall code, language = Some code -> code <> [] ->
      code <> lit "Auto-detect" ->
      dict_get (lit "language") opts = Some (VStr code)).
Proof.
  intros a' opts. split; [|split].
  - subst a' opts. unfold transcribe_audio.
    set (a1 := if needs_load a name then fst (load_model a name) else a).
    assert (Hr : recognitions a1 = recognitions a).
    { subst a1. unfold load_model.
      destruct (needs_load a name); [|reflexivity].
      destruct (whisper_load_model name); reflexivity. }
    destruct (model a1) as [m|] eqn:Em.
    + destruct (model_transcribe m audio_path (transcribe_options language));
        simpl; now rewrite Hr.
    + simpl. rewrite Em. simpl. now rewrite app_nil_r.
  - subst opts. intros [-> | ->]; reflexivity.
  - subst opts. intros code -> H1 H2. unfold transcribe_options, language_given.
    rewrite (str_eqb_neq _ _ H1), (str_eqb_neq _ _ H2). reflexivity.
Qed.

End Cache.

(** ** The transcription runner *)

Section Runner.
Context `{B : Backend}.

Lemma transcribe_audio_outcome
    (a : App) (audio_path : str) (language : option str) (name : str) :
  snd (transcribe_audio a audio_path language name) =
  outcome_with (model_in_use a name) audio_path language name.
Proof.
  unfold transcribe_audio, model_in_use, outcome_with.
  destruct (model (if needs_load a name then fst (load_model a name) else a))
    as [m|]; [|reflexivity].
  destruct (model_transcribe m audio_path (transcribe_options language));
    reflexivity.
Qed.

Lemma transcribe_audio_cache
    (a : App) (audio_path : str) (language : option str) (name : str) :
  let a1 := if needs_load a name then fst (load_model a name) else a in
  model (fst (transcribe_audio a audio_path language name)) = model a1
  /\ model_name (fst (transcribe_audio a audio_path language name)) =
     model_name a1.
Proof.
  intros a1. unfold transcribe_audio. fold a1.
  destruct (model a1) as [m|] eqn:Em.
  - destruct (model_transcribe m audio_path (transcribe_options language));
      simpl; auto.
  - simpl. auto.
Qed.

(** The handle a job uses is the one the next job with the same identifier
    uses. *)
Lemma model_in_use_stable
    (a : App) (audio_path : str) (language : option str) (name : str) :
  model_in_use (fst (transcribe_audio a audio_path language name)) name =
  model_in_use a name.
Proof.
  destruct (transcribe_audio_cache a audio_path language name) as [Hm Hn].
  set (a' := fst (transcribe_audio a audio_path language name)) in *.
  unfold model_in_use at 2.
  destruct (needs_load a name) eqn:En.
  - unfold load_model in Hm, Hn |- *. rewrite En in Hm, Hn |- *.
    destruct (whisper_load_model name) as [m|e] eqn:El; simpl in Hm, Hn |- *.
    + unfold model_in_use.
      now rewrite (needs_load_same a' name m Hm Hn).
    + unfold model_in_use. destruct (model a) as [m|] eqn:Em.
      * now rewrite (needs_load_same a' name m Hm Hn).
      * assert (En' : needs_load a' name = true).
        { unfold needs_load. now rewrite Hm. }
        rewrite En'. unfold load_model. rewrite En', El. simpl. exact Hm.
  - unfold model_in_use.
    assert (En' : needs_load a' name = false).
    { unfold needs_load in En |- *. now rewrite Hm, Hn. }
    now rewrite En'.
Qed.

Lemma transcribe_loop_kept (paths : list str) :
  forall (a : App) (language : option str) (name : str) (results : list Item),
  snd (transcribe_loop a paths language name results) =
  results ++ kept_items (model_in_use a name) paths language name.
Proof.
  induction paths as [|p paths IH]; intros a language name results.
  - simpl. now rewrite app_nil_r.
  - simpl.
    pose proof (transcribe_audio_outcome a p language name) as Ho.
    pose proof (model_in_use_stable a p language name) as Hs.
    destruct (transcribe_audio a p language name) as [a' [t d]].
    simpl in Ho, Hs. rewrite IH, Hs.
    unfold kept_items. simpl. rewrite <- Ho. simpl.
    destruct (truthy t); simpl; [|reflexivity].
    rewrite <- app_assoc, <- Ho. reflexivity.
Qed.

Lemma fold_left_append (A : Type) (f : A -> str) (l : list A) (init : str) :
  fold_left (fun out x => out ++ f x) l init = init ++ concat (map f l).
Proof.
  revert init; induction l as [|x l IH]; intros init; simpl.
  - now rewrite app_nil_r.
  - now rewrite IH, app_assoc.
Qed.

Lemma format_batch_sections (results : list Item) :
  format_batch results =
  summary_line (length results) ++ concat (map file_section results).
Proof. apply fold_left_append. Qed.

Lemma handler_batch (a : App) (p q : str) (paths : list str)
    (language : option str) (name : str) :
  snd (transcribe_handler a (Some (p :: q :: paths)) None language name) =
  format_batch (kept_items (model_in_use a name) (p :: q :: paths) language name).
Proof.
  unfold transcribe_handler.
  pose proof (transcribe_loop_kept (p :: q :: paths) a language name []) as H.
  destruct (transcribe_loop a (p :: q :: paths) language name []) as [a' rs].
  simpl in H. now rewrite H.
Qed.

(** The report of a batch of three files of which the second fails, in
    terms of the formatter. *)
Lemma handler_partial_failure_report
    (a : App) (p1 p2 p3 : str) (language : option str) (name : str)
    (m : Model) (r1 r3 : Result) (e : Exn) :
  model_in_use a name = Some m ->
  model_transcribe m p1 (transcribe_options language) = Return r1 ->
  get_text r1 <> [] ->
  model_transcribe m p2 (transcribe_options language) = Raise e ->
  model_transcribe m p3 (transcribe_options language) = Return r3 ->
  get_text r3 <> [] ->
  snd (transcribe_handler a (Some [p1; p2; p3]) None language name) =
  summary_line 2
  ++ file_section {| it_filename := basename p1;
                     it_transcription := get_text r1;
                     it_details := format_result r1 name |}
  ++ file_section {| it_filename := basename p3;
                     it_transcription := get_text r3;
                     it_details := format_result r3 name |}.
Proof.
  intros Hm H1 T1 H2 H3 T3.
  rewrite handler_batch, format_batch_sections, Hm.
  assert (O1 : outcome_with (Some m) p1 language name =
               (get_text r1, format_result r1 name))
    by (unfold outcome_with; now rewrite H1).
  assert (O2 : outcome_with (Some m) p2 language name =
               ([], msg_transcription_error e))
    by (unfold outcome_with; now rewrite H2).
  assert (O3 : outcome_with (Some m) p3 language name =
               (get_text r3, format_result r3 name))
    by (unfold outcome_with; now rewrite H3).
  assert (K1 : truthy (get_text r1) = true)
    by (destruct (get_text r1); [contradiction|reflexivity]).
  assert (K3 : truthy (get_text r3) = true)
    by (destruct (get_text r3); [contradiction|reflexivity]).
  unfold kept_items. cbn [filter]. rewrite O1, O2, O3. cbn [fst truthy].
  rewrite K1, K3. cbn [map length concat]. rewrite O1, O3.
  unfold item_for. cbn [fst snd]. now rewrite app_nil_r.
Qed.

(** C10.  In a batch (two files or more) the entries kept are exactly those
    whose transcription text is not empty, in input order; the report is the
    summary line counting them followed by their sections.  A file whose
    recognition succeeds with an empty text, like one whose recognition
    raises, leaves the kept entries as they are without it. *)
Theorem batch_keeps_nonempty_text
    (a : App) (paths : list str) (language : option str) (name : str) :
  (2 <= length paths)%nat ->
  let m := model_in_use a name in
  let kept := kept_items m paths language name in
  snd (transcribe_multiple_files a paths language name) = kept
  /\ snd (transcribe_handler a (Some paths) None language name) =
     summary_line (length kept) ++ concat (map file_section kept)
  /\ kept = map (fun p => item_for p (outcome_with m p language name))
              (filter (fun p => truthy (fst (outcome_with m p language name)))
                      paths)
  /\ (forall h pre p post,
        m = Some h -> paths = pre ++ p :: post ->
        (exists r, model_transcribe h p (transcribe_options language) = Return r
                   /\ get_text r = [])
        \/ (exists e, model_transcribe h p (transcribe_options language) = Raise e) ->
        kept = kept_items m (pre ++ post) language name).
Proof.
  intros Hlen m kept. repeat split.
  - unfold transcribe_multiple_files. now rewrite transcribe_loop_kept.
  - destruct paths as [|p [|q paths]]; simpl in Hlen; try lia.
    rewrite handler_batch. apply format_batch_sections.
  - intros h pre p post Hm -> Hp. subst kept. unfold kept_items.
    rewrite !filter_app. simpl filter.
    assert (Ht : truthy (fst (outcome_with m p language name)) = false).
    { rewrite Hm. unfold outcome_with.
      destruct Hp as [[r [Hr Ht]] | [e He]].
      - rewrite Hr. simpl. now rewrite Ht.
      - now rewrite He. }
    now rewrite Ht.
Qed.

(** C6.  With no microphone recording and no uploaded file the handler
    returns the request-level error and leaves the application as it was;
    that report holds no [FILE:] marker and is not classified as a batch;
    and it differs from the report of every non-empty request, so also from
    that of a batch whose every item failed. *)
Theorem empty_request_is_distinguishable
    (a : App) (language : option str) (name : str) :
  (forall audio_files, audio_files = None \/ audio_files = Some [] ->
     transcribe_handler a audio_files None language name = (a, msg_no_audio))
  /\ contains (lit "FILE:") msg_no_audio = false
  /\ classify msg_no_audio = SingleReport
  /\ (forall paths, paths <> [] ->
        snd (transcribe_handler a (Some paths) None language name)
        <> msg_no_audio)
  /\ (forall paths, (2 <= length paths)%nat ->
        kept_items (model_in_use a name) paths language name = [] ->
        snd (transcribe_handler a (Some paths) None language name)
        = summary_line 0).
Proof.
  split; [|split; [|split; [|split]]].
  - intros files [-> | ->]; reflexivity.
  - vm_compute. reflexivity.
  - vm_compute. reflexivity.
  - intros [|p [|q paths]] Hne; [contradiction| |].
    + unfold transcribe_handler.
      pose proof (transcribe_audio_outcome a p language name) as Ho.
      destruct (transcribe_audio a p language name) as [a' [t d]].
      apply (f_equal snd) in Ho. cbn [snd] in Ho |- *. rewrite Ho.
      unfold outcome_with.
      destruct (model_in_use a name) as [m|].
      * destruct (model_transcribe m p (transcribe_options language)) as [r|e];
          simpl; intros H; apply (f_equal (firstn 5)) in H;
          vm_compute in H; discriminate.
      * simpl. intros H; apply (f_equal (firstn 5)) in H.
        vm_compute in H. discriminate.
    + rewrite handler_batch, format_batch_sections.
      intros H; apply (f_equal (firstn 2)) in H.
      vm_compute in H. discriminate.
  - intros [|p [|q paths]] Hlen Hk; simpl in Hlen; try lia.
    rewrite handler_batch, Hk. reflexivity.
Qed.

End Runner.

(** ** The report parser *)

Lemma lstrip_snoc (l : str) (c : char) :
  lstrip (l ++ [c]) =
  match lstrip l with
  | [] => lstrip [c]
  | x :: xs => (x :: xs) ++ [c]
  end.
Proof.
  induction l as [|d l IH]; [reflexivity|].
  simpl. destruct (is_space d); [exact IH|reflexivity].
Qed.

Lemma strip_space_head (c : char) (s : str) :
  is_space c = true -> strip (c :: s) = strip s.
Proof.
  intros Hc. unfold strip, rstrip. simpl rev. rewrite lstrip_snoc.
  destruct (lstrip (rev s)) as [|x xs].
  - simpl. now rewrite Hc.
  - rewrite rev_app_distr. simpl. now rewrite Hc.
Qed.

Lemma plain_line_step (results : list FileRec) (cur : FileRec) (line : str) :
  rec_nonempty cur = true -> plain_line line = true ->
  parse_step (results, cur) line =
  (results,
   {| filename := filename cur; language := language cur;
      duration := duration cur;
      transcription :=
        Some (get_or_empty (transcription cur) ++ line ++ [NL]) |}).
Proof.
  intros Hc Hp. unfold plain_line in Hp.
  apply andb_true_iff in Hp as [Hp Hdelim].
  apply andb_true_iff in Hp as [Hp Hsum].
  apply andb_true_iff in Hp as [Hp Hstars].
  apply andb_true_iff in Hp as [Hblank Hfile].
  apply negb_true_iff in Hdelim, Hsum, Hstars, Hfile.
  unfold parse_step.
  assert (Hlang : startswith (lit "**Detected Language:") line = false)
    by (apply (startswith_longer (lit "**") (lit "Detected Language:")); assumption).
  assert (Hdur : startswith (lit "**Duration:") line = false)
    by (apply (startswith_longer (lit "**") (lit "Duration:")); assumption).
  rewrite Hfile, Hlang, Hdur, Hsum, Hdelim, Hc, Hstars, Hblank. reflexivity.
Qed.

Lemma plain_lines_fold (lines : list str) :
  forall (results : list FileRec) (cur : FileRec) (line : str),
  rec_nonempty cur = true ->
  forallb plain_line (line :: lines) = true ->
  fold_left parse_step (line :: lines) (results, cur) =
  (results,
   {| filename := filename cur; language := language cur;
      duration := duration cur;
      transcription :=
        Some (get_or_empty (transcription cur)
              ++ concat (map (fun l => l ++ [NL]) (line :: lines))) |}).
Proof.
  induction lines as [|l lines IH]; intros results cur line Hc Hp;
    simpl in Hp; apply andb_true_iff in Hp as [Hl Hp].
  - cbn [fold_left]. rewrite (plain_line_step _ _ _ Hc Hl).
    cbn [map concat]. now rewrite app_nil_r.
  - change (fold_left parse_step (line :: l :: lines) (results, cur))
      with (fold_left parse_step (l :: lines) (parse_step (results, cur) line)).
    rewrite (plain_line_step _ _ _ Hc Hl).
    rewrite IH; [|now destruct cur as [[?|] [?|] [?|] [?|]]|exact Hp].
    cbn [filename language duration transcription get_or_empty].
    cbn [map concat]. now rewrite <- !app_assoc.
Qed.

Lemma step_file (results : list FileRec) (fn : str) :
  parse_step (results, empty_rec) (lit "FILE: " ++ fn) =
  (results,
   {| filename := Some (strip (SP :: fn)); language := None;
      duration := None; transcription := None |}).
Proof. reflexivity. Qed.

Lemma step_heading (results : list FileRec) (cur : FileRec) :
  parse_step (results, cur) (lit "**Transcription:**") = (results, cur).
Proof.
  unfold parse_step. cbv [lit]. simpl.
  destruct (rec_nonempty cur); reflexivity.
Qed.

Lemma step_blank (results : list FileRec) (cur : FileRec) :
  parse_step (results, cur) [] = (results, cur).
Proof.
  unfold parse_step. simpl.
  destruct (rec_nonempty cur); reflexivity.
Qed.

Lemma step_language (results : list FileRec) (cur : FileRec) (lang : str) :
  parse_step (results, cur) (lit "**Detected Language:** " ++ lang) =
  (results,
   {| filename := filename cur;
      language := Some (strip (after_colon (lit "**Detected Language:** " ++ lang)));
      duration := duration cur;
      transcription := transcription cur |}).
Proof. reflexivity. Qed.

Lemma step_model (results : list FileRec) (cur : FileRec) (name : str) :
  parse_step (results, cur) (lit "**Model Used:** " ++ name) = (results, cur).
Proof.
  unfold parse_step. cbv [lit]. simpl.
  destruct (rec_nonempty cur); reflexivity.
Qed.

Lemma step_duration (results : list FileRec) (cur : FileRec) (rest : str) :
  parse_step (results, cur) (lit "**Duration:** " ++ rest) =
  (results,
   {| filename := filename cur;
      language := language cur;
      duration := Some (strip (after_colon (lit "**Duration:** " ++ rest)));
      transcription := transcription cur |}).
Proof. reflexivity. Qed.

Lemma step_delimiter (results : list FileRec) (cur : FileRec) :
  rec_nonempty cur = true ->
  parse_step (results, cur) DELIMITER =
  (results ++ [{| filename := filename cur; language := language cur;
                  duration := duration cur;
                  transcription := Some (get_or_empty (transcription cur)) |}],
   empty_rec).
Proof.
  intros Hc. unfold parse_step.
  change (startswith (lit "FILE:") DELIMITER) with false.
  change (startswith (lit "**Detected Language:") DELIMITER) with false.
  change (startswith (lit "**Duration:") DELIMITER) with false.
  change (startswith SUMMARY_PREFIX DELIMITER) with false.
  change (startswith DELIMITER DELIMITER) with true.
  cbv iota. now rewrite Hc.
Qed.

Lemma step_summary (st : list FileRec * FileRec) (rest : str) :
  parse_step st (SUMMARY_PREFIX ++ rest) = st.
Proof. destruct st as [results cur]. reflexivity. Qed.

(** The parser reads the section of a readable result into one record and
    is outside any record afterwards. *)
Lemma section_fold (results : list FileRec) (r : TranscriptionResult) :
  forallb plain_line (split_on NL (tr_text r)) = true ->
  fold_left parse_step (section_lines r) (results, empty_rec) =
  (results ++ [record_of r], empty_rec).
Proof.
  intros Hp. unfold section_lines. rewrite !fold_left_app.
  cbn [fold_left]. rewrite step_file, step_heading.
  destruct (split_on NL (tr_text r)) as [|l ls] eqn:E;
    [now apply split_on_not_nil in E|].
  rewrite plain_lines_fold; [|reflexivity|exact Hp].
  rewrite <- E, concat_split_on.
  cbn [filename language duration transcription get_or_empty app].
  rewrite step_blank, step_language, step_model.
  cbn [filename language duration transcription].
  unfold record_of.
  destruct (tr_duration r) as [d|]; cbn [fold_left].
  - rewrite step_duration, !step_blank.
    rewrite step_delimiter by reflexivity. rewrite step_blank.
    cbn [filename language duration transcription get_or_empty].
    reflexivity.
  - rewrite !step_blank.
    rewrite step_delimiter by reflexivity. rewrite step_blank.
    cbn [filename language duration transcription get_or_empty].
    reflexivity.
Qed.

Lemma not_in_by_scan (c : char) (s : str) :
  forallb (fun x => negb (N.eqb x c)) s = true -> ~ In c s.
Proof.
  intros H Hin. rewrite forallb_forall in H. specialize (H c Hin).
  now rewrite N.eqb_refl in H.
Qed.

Lemma split_on_head (c : char) (b : str) :
  split_on c (c :: b) = [] :: split_on c b.
Proof. simpl. now rewrite N.eqb_refl. Qed.

Lemma split_on_line2 (c : char) (a1 a2 b : str) :
  ~ In c a1 -> ~ In c a2 ->
  split_on c (a1 ++ a2 ++ c :: b) = (a1 ++ a2) :: split_on c b.
Proof.
  intros H1 H2. rewrite app_assoc. apply split_on_line.
  rewrite in_app_iff. tauto.
Qed.

Lemma split_on_line3 (c : char) (a1 a2 a3 b : str) :
  ~ In c a1 -> ~ In c a2 -> ~ In c a3 ->
  split_on c (a1 ++ a2 ++ a3 ++ c :: b) = (a1 ++ a2 ++ a3) :: split_on c b.
Proof.
  intros H1 H2 H3. rewrite (app_assoc a2 a3). rewrite split_on_line2; auto.
  rewrite in_app_iff. tauto.
Qed.

Lemma fmt2f_no_newline (d : Z) : ~ In NL (fmt2f d).
Proof.
  apply numeric_not_in; [|apply fmt2f_numeric]. unfold numeric, NL. lia.
Qed.

Lemma decimal_no_newline (n : N) : ~ In NL (decimal n).
Proof.
  apply numeric_not_in; [|apply decimal_numeric]. unfold numeric, NL. lia.
Qed.

(** The lines of a section, followed by those of the rest of the report. *)
Lemma section_split (r : TranscriptionResult) (rest : str) :
  no_newline (tr_filename r) -> no_newline (tr_language r) ->
  no_newline (tr_model r) ->
  split_on NL (file_section (item_of r) ++ rest) =
  section_lines r ++ split_on NL rest.
Proof.
  unfold no_newline. intros Hf Hl Hm.
  unfold file_section, item_of, details_text, duration_line, section_lines.
  cbn [it_filename it_details].
  destruct (tr_duration r) as [d|]; rewrite <- !app_assoc; cbn [app].
  - rewrite split_on_line2 by (assumption || (apply not_in_by_scan; reflexivity)).
    rewrite split_on_line by (apply not_in_by_scan; reflexivity).
    rewrite split_on_app, split_on_head.
    rewrite split_on_line2 by (assumption || (apply not_in_by_scan; reflexivity)).
    rewrite split_on_line2 by (assumption || (apply not_in_by_scan; reflexivity)).
    rewrite split_on_line3
      by (apply fmt2f_no_newline || (apply not_in_by_scan; reflexivity)).
    rewrite !split_on_head.
    rewrite split_on_line by (apply not_in_by_scan; reflexivity).
    rewrite split_on_head. reflexivity.
  - rewrite split_on_line2 by (assumption || (apply not_in_by_scan; reflexivity)).
    rewrite split_on_line by (apply not_in_by_scan; reflexivity).
    rewrite split_on_app, split_on_head.
    rewrite split_on_line2 by (assumption || (apply not_in_by_scan; reflexivity)).
    rewrite split_on_line2 by (assumption || (apply not_in_by_scan; reflexivity)).
    rewrite !split_on_head.
    rewrite split_on_line by (apply not_in_by_scan; reflexivity).
    rewrite split_on_head. reflexivity.
Qed.

Lemma sections_split (R : list TranscriptionResult) :
  Forall readable R ->
  split_on NL (concat (map file_section (map item_of R))) =
  concat (map section_lines R) ++ [[]].
Proof.
  induction 1 as [|r R [Hf [Hl [Hm _]]] _ IH]; [reflexivity|].
  cbn [map concat]. rewrite section_split by assumption.
  now rewrite IH, app_assoc.
Qed.

Lemma sections_fold (R : list TranscriptionResult) :
  Forall readable R ->
  forall results,
  fold_left parse_step (concat (map section_lines R)) (results, empty_rec) =
  (results ++ map record_of R, empty_rec).
Proof.
  induction 1 as [|r R [_ [_ [_ Hp]]] _ IH]; intros results.
  - simpl. now rewrite app_nil_r.
  - cbn [map concat]. rewrite fold_left_app, section_fold by exact Hp.
    rewrite IH, <- app_assoc. reflexivity.
Qed.

(** Parsing the report of readable results gives one record per result, in
    order. *)
Lemma parse_format_batch (R : list TranscriptionResult) :
  Forall readable R ->
  parse_records (format_batch (map item_of R)) = map record_of R.
Proof.
  intros HR. unfold parse_records, parse_loop.
  rewrite format_batch_sections. unfold summary_line.
  set (n := length (map item_of R)).
  rewrite <- !app_assoc. cbn [app].
  rewrite (app_assoc OK_GLYPH (lit " Processed ")).
  rewrite split_on_line3
    by (apply decimal_no_newline || (apply not_in_by_scan; reflexivity)).
  rewrite split_on_head, sections_split by exact HR.
  cbn [fold_left].
  change ((OK_GLYPH ++ lit " Processed ") ++ decimal (N.of_nat n)
          ++ lit " files successfully")
    with (SUMMARY_PREFIX ++ SP :: decimal (N.of_nat n)
          ++ lit " files successfully").
  rewrite step_summary, step_blank.
  rewrite fold_left_app, sections_fold by exact HR.
  cbn [fold_left]. rewrite step_blank. reflexivity.
Qed.

(** What the parser recovers from the report of readable results, column by
    column.  The language and duration columns hold what follows the first
    colon of their label line, so they start with the two asterisks that
    close the label. *)
Lemma roundtrip_rows (R : list TranscriptionResult) :
  Forall readable R ->
  roundtrip R =
  map (fun r =>
         [strip (tr_filename r); strip (tr_text r);
          strip (lit "** " ++ tr_language r);
          match tr_duration r with
          | Some d => strip (lit "** " ++ fmt2f d ++ lit " seconds")
          | None => []
          end]) R.
Proof.
  intros HR. unfold roundtrip, df_data.
  rewrite parse_format_batch by exact HR. rewrite map_map.
  apply map_ext. intros r. unfold df_row, record_of.
  cbn [filename language duration transcription get_or_empty].
  rewrite strip_space_head by reflexivity. rewrite strip_newline.
  destruct (tr_duration r); reflexivity.
Qed.

Lemma scenario_readable : Forall readable scenario.
Proof.
  repeat constructor; try (apply not_in_by_scan; reflexivity).
Qed.

(** The rows recovered in the concrete scenario. *)
Example scenario_rows :
  roundtrip scenario =
  [ [lit "a.wav"; lit "hello"; lit "** en"; lit "** 1.23 seconds"];
    [lit "b.wav"; lit "world"; lit "** en"; lit "** 2.50 seconds"] ].
Proof. vm_compute. reflexivity. Qed.

(** C1 (the claim fails here).  A result whose text holds an empty line
    between two sentences has no marker and no rule in any field, yet the
    rows read back from its report are not the promised ones: in the text
    the empty line is gone, and the language and duration columns are not
    "en" and "1.23". *)
Lemma roundtrip_loses_empty_line :
  forallb non_adversarial two_paragraphs = true
  /\ roundtrip two_paragraphs =
     [ [lit "a.wav"; lit "one" ++ [NL] ++ lit "two"; lit "** en";
        lit "** 1.23 seconds"] ]
  /\ map promised_row two_paragraphs =
     [ [lit "a.wav"; lit "one" ++ [NL; NL] ++ lit "two"; lit "en"; lit "1.23"] ]
  /\ roundtrip two_paragraphs <> map promised_row two_paragraphs.
Proof.
  repeat split; try (vm_compute; reflexivity).
  intros H. vm_compute in H. discriminate.
Qed.

(** C1 (amended).  For results with one-line file names, languages and
    model identifiers and a text made of plain lines, parsing the batch
    report gives one row per result, in order, whose file name and
    transcription text are those of the result with surrounding white space
    stripped.  In the concrete scenario the file names are "a.wav" and
    "b.wav" and the texts "hello" and "world". *)
Theorem roundtrip_filename_and_text (R : list TranscriptionResult) :
  Forall readable R ->
  map (firstn 2) (roundtrip R) =
  map (fun r => [strip (tr_filename r); strip (tr_text r)]) R
  /\ map (firstn 2) (roundtrip scenario) =
     [ [lit "a.wav"; lit "hello"]; [lit "b.wav"; lit "world"] ].
Proof.
  intros HR. split.
  - rewrite (roundtrip_rows R HR), map_map. reflexivity.
  - vm_compute. reflexivity.
Qed.

(** C3 (what the code does where the claim fails).  The report
    [unterminated_report] is a batch report whose second section has no
    delimiter line.  When the loop ends the record of "b.wav" is still
    open, and the rows hold "a.wav" only; with a delimiter line added at the
    end, or with a further [FILE:] line, the record of "b.wav" is kept. *)
Theorem open_record_dropped_at_end_of_input :
  classify unterminated_report = BatchReport
  /\ snd (parse_loop unterminated_report) =
     {| filename := Some (lit "b.wav"); language := None; duration := None;
        transcription := Some (lit "world" ++ [NL]) |}
  /\ df_data (parse_records unterminated_report) =
     [ [lit "a.wav"; lit "hello"; []; []] ]
  /\ df_data (parse_records (unterminated_report ++ [NL] ++ DELIMITER)) =
     [ [lit "a.wav"; lit "hello"; []; []]; [lit "b.wav"; lit "world"; []; []] ]
  /\ df_data (parse_records (unterminated_report ++ [NL] ++ lit "FILE: c.wav")) =
     [ [lit "a.wav"; lit "hello"; []; []]; [lit "b.wav"; lit "world"; []; []] ].
Proof. repeat split; vm_compute; reflexivity. Qed.

(** C2 (what the code does where the claim fails).  [export_transcription]
    of the empty string and [export_batch_results] of [None] return [None]
    and leave the disk as it is.  [export_batch_results] of the empty list
    passes the guard: it creates the directory, writes a file that holds the
    header row and returns its path.  [export_handler] reaches that call on
    a text that holds a marker and a rule but no section. *)
Theorem export_of_empty_list_writes_header
    (d : Disk) (h : Host) (name tmp : str) :
  mkdtemp h = Return tmp ->
  open_error h = None ->
  let path := path_join tmp (name ++ lit "_" ++ now_stamp h ++ lit ".csv") in
  let path' :=
    path_join tmp (lit "batch_transcription_" ++ now_stamp h ++ lit ".csv") in
  export_transcription d h [] name = (d, None)
  /\ export_batch_results d h None name = (d, None)
  /\ export_batch_results d h (Some []) name =
     (write_file (make_dir d tmp) path CSV_HEADER, Some path)
  /\ df_data (parse_records prose_report) = []
  /\ export_handler d h prose_report =
     (write_file (make_dir d tmp) path' CSV_HEADER, Some path').
Proof.
  intros Hm Ho path path'. repeat split.
  - unfold export_batch_results. rewrite Hm, Ho. reflexivity.
  - unfold export_handler.
    change (classify prose_report) with BatchReport.
    change (df_data (parse_records prose_report)) with (@nil (list str)).
    unfold export_batch_results. rewrite Hm, Ho. reflexivity.
Qed.

(** ** Classification of a report *)










(** C4 (what the code does where the claim fails).  A single upload whose
    transcription quotes a marker and a rule: the report of the handler holds
    no line that starts with [FILE:] and none that starts with the rule, yet
    [export_handler] classifies it as a batch report, finds no record in it
    and writes a ".csv" file that holds the header row only. *)
Theorem single_report_classified_as_batch :
  let report := format_result quoting_result (lit "base") in
  snd (transcribe_handler (@init quoting_backend) (Some [lit "/in/prose.wav"])
         None None (lit "base")) = report
  /\ report =
     lit "**Transcription:**" ++ [NL] ++ lit "see FILE: x " ++ times HYPHEN 50
     ++ [NL; NL] ++ lit "**Detected Language:** en" ++ [NL]
     ++ lit "**Model Used:** base" ++ [NL]
  /\ classify report = BatchReport
  /\ has_line_starting (lit "FILE:") report = false
  /\ has_line_starting DELIMITER report = false
  /\ df_data (parse_records report) = []
  /\ export_handler empty_disk sample_host report =
     ({| dirs := [lit "/tmp/tmpabc"];
         files := [(lit "/tmp/tmpabc/batch_transcription_20240102_030405.csv",
                    CSV_HEADER)] |},
      Some (lit "/tmp/tmpabc/batch_transcription_20240102_030405.csv")).
Proof. repeat split; vm_compute; reflexivity. Qed.


(** ** The properties on the sample back end *)

Lemma load_model_failure_renames_cache_witness :
  let a := @init sample_backend in
  needs_load a (lit "large-v9") = true
  /\ @whisper_load_model sample_backend (lit "large-v9")
     = Raise (lit "unknown model")
  /\ model_name a = lit "base"
  /\ model (fst (load_model a (lit "large-v9"))) = model a
  /\ model_name (fst (load_model a (lit "large-v9"))) = lit "large-v9".
Proof.
  pose proof (@load_model_failure_renames_cache sample_backend
                (@init sample_backend) (lit "large-v9") (lit "unknown model")
                eq_refl eq_refl) as H.
  split; [reflexivity|]. split; [reflexivity|]. split; [reflexivity|].
  split; [exact (proj1 (proj2 H))|exact (proj1 (proj2 (proj2 H)))].
Defined.

Lemma load_model_twice_constructs_once_witness :
  let a := @fresh_app sample_backend in
  let a2 := fst (load_model (fst (load_model a (lit "base"))) (lit "base")) in
  needs_load a (lit "base") = true
  /\ constructions a2 = [lit "base"]
  /\ constructions (fst (load_model a2 (lit "small")))
     = [lit "base"; lit "small"].
Proof.
  pose proof (@load_model_twice_constructs_once sample_backend
                (@fresh_app sample_backend) (lit "base") (lit "small")
                0%nat 1%nat eq_refl eq_refl) as H.
  assert (Hne : lit "small" <> lit "base") by discriminate.
  specialize (H Hne eq_refl).
  split; [reflexivity|].
  split; [exact (proj1 (proj2 (proj2 H)))|].
  exact (proj1 (proj2 (proj2 (proj2 (proj2 (proj2 (proj2 H))))))).
Defined.

Lemma auto_detect_omits_language_witness :
  dict_get (lit "language")
    (@transcribe_options sample_backend (Some (lit "Auto-detect"))) = None
  /\ dict_get (lit "language")
       (@transcribe_options sample_backend (Some (lit "pt")))
     = Some (VStr (lit "pt")).
Proof.
  pose proof (@auto_detect_omits_language sample_backend
                (@init sample_backend) (lit "/in/a.wav")
                (Some (lit "Auto-detect")) (lit "base")) as H1.
  pose proof (@auto_detect_omits_language sample_backend
                (@init sample_backend) (lit "/in/a.wav")
                (Some (lit "pt")) (lit "base")) as H2.
  split.
  - apply (proj1 (proj2 H1)). right. reflexivity.
  - apply (proj2 (proj2 H2) (lit "pt")); [reflexivity|discriminate|discriminate].
Defined.

Lemma batch_keeps_nonempty_text_witness :
  let paths := [lit "/in/a.wav"; lit "/in/silence.wav"; lit "/in/bad.wav"] in
  (2 <= length paths)%nat
  /\ map it_filename
       (snd (transcribe_multiple_files (@init sample_backend) paths None
               (lit "base")))
     = [lit "a.wav"].
Proof.
  intros paths.
  assert (Hlen : (2 <= length paths)%nat) by (simpl; lia).
  split; [exact Hlen|].
  rewrite (proj1 (@batch_keeps_nonempty_text sample_backend
                    (@init sample_backend) paths None (lit "base") Hlen)).
  reflexivity.
Defined.

Lemma empty_request_is_distinguishable_witness :
  snd (transcribe_handler (@init sample_backend)
         (Some [lit "/in/bad.wav"; lit "/in/bad.wav"]) None None (lit "base"))
  <> msg_no_audio
  /\ transcribe_handler (@init sample_backend) (Some []) None None (lit "base")
     = (@init sample_backend, msg_no_audio).
Proof.
  pose proof (@empty_request_is_distinguishable sample_backend
                (@init sample_backend) None (lit "base")) as H.
  split.
  - apply (proj1 (proj2 (proj2 (proj2 H)))). discriminate.
  - apply (proj1 H). right. reflexivity.
Defined.

Lemma roundtrip_filename_and_text_witness :
  Forall readable scenario
  /\ map (firstn 2) (roundtrip scenario) =
     map (fun r => [strip (tr_filename r); strip (tr_text r)]) scenario.
Proof.
  split; [exact scenario_readable|].
  exact (proj1 (roundtrip_filename_and_text scenario scenario_readable)).
Defined.


Lemma export_of_empty_list_writes_header_witness :
  mkdtemp sample_host = Return (lit "/tmp/tmpabc")
  /\ export_batch_results empty_disk sample_host (Some [])
       (lit "batch_transcription")
     = ({| dirs := [lit "/tmp/tmpabc"];
           files := [(lit "/tmp/tmpabc/batch_transcription_20240102_030405.csv",
                      CSV_HEADER)] |},
        Some (lit "/tmp/tmpabc/batch_transcription_20240102_030405.csv")).
Proof.
  split; [reflexivity|].
  exact (proj1 (proj2 (proj2
           (export_of_empty_list_writes_header empty_disk sample_host
              (lit "batch_transcription") (lit "/tmp/tmpabc")
              eq_refl eq_refl)))).
Defined.

(** * Further properties *)

(** ** The cache during transcription *)

Section CacheInUse.
Context `{B : Backend}.

Lemma needs_load_false (a : App) (name : str) :
  needs_load a name = false ->
  model_name a = name /\ exists m, model a = Some m.
Proof.
  unfold needs_load. intros H. apply orb_false_iff in H as [Hm Hn].
  apply negb_false_iff, str_eqb_eq in Hn. split; [exact Hn|].
  destruct (model a) as [m|]; [now exists m|discriminate].
Qed.

Lemma transcribe_audio_fields
    (a : App) (audio_path : str) (language : option str) (name : str) :
  let a' := fst (transcribe_audio a audio_path language name) in
  model a' = model_in_use a name
  /\ model_name a' = name
  /\ constructions a' =
     constructions a ++ (if needs_load a name then [name] else [])
  /\ recognitions a' =
     recognitions a ++
     (if is_none (model_in_use a name) then []
      else [(audio_path, transcribe_options language)]).
Proof.
  intros a'. subst a'. unfold transcribe_audio, model_in_use.
  set (a1 := if needs_load a name then fst (load_model a name) else a).
  assert (H1 : model_name a1 = name
               /\ constructions a1 =
                  constructions a ++ (if needs_load a name then [name] else [])
               /\ recognitions a1 = recognitions a).
  { subst a1. destruct (needs_load a name) eqn:En.
    - unfold load_model. rewrite En.
      destruct (whisper_load_model name); simpl; auto.
    - destruct (needs_load_false a name En) as [Hn _].
      now rewrite app_nil_r. }
  destruct H1 as [Hn [Hc Hr]].
  destruct (model a1) as [m|] eqn:Em.
  - destruct (model_transcribe m audio_path (transcribe_options language));
      simpl; rewrite Hr; auto.
  - simpl. rewrite Em, Hr, app_nil_r. auto.
Qed.

(** X1.  What a call of [transcribe_audio] does to the application: the
    handle it holds afterwards is the one it transcribed with, the recorded
    identifier is the requested one, the construction is attempted once when
    the cache does not already answer to that identifier and not at all
    otherwise, and the recognizer is called once when a handle is available
    and not at all otherwise. *)
Theorem transcribe_audio_effect
    (a : App) (audio_path : str) (language : option str) (name : str) :
  let a' := fst (transcribe_audio a audio_path language name) in
  model a' = model_in_use a name
  /\ model_name a' = name
  /\ constructions a' =
     constructions a ++ (if needs_load a name then [name] else [])
  /\ recognitions a' =
     recognitions a ++
     (if is_none (model_in_use a name) then []
      else [(audio_path, transcribe_options language)]).
Proof. exact (transcribe_audio_fields a audio_path language name). Qed.

Lemma model_in_use_ready (a : App) (name : str) (m : Model) :
  model a = Some m -> model_name a = name -> model_in_use a name = Some m.
Proof.
  intros Hm Hn. unfold model_in_use.
  now rewrite (needs_load_same a name m Hm Hn).
Qed.

Lemma model_in_use_none (a : App) (name : str) :
  model_in_use a name = None ->
  needs_load a name = true /\ model a = None
  /\ exists e, whisper_load_model name = Raise e.
Proof.
  unfold model_in_use, load_model. destruct (needs_load a name) eqn:En.
  - destruct (whisper_load_model name) as [m|e]; simpl; [discriminate|].
    intros H. repeat split; eauto.
  - intros H. destruct (needs_load_false a name En) as [_ [m Hm]]. congruence.
Qed.

(** X2.  A batch over a cache that yields a handle: whatever the outcome of
    the items, the application ends with that handle under the requested
    identifier, the construction was attempted at most once (for the first
    file, when the cache did not answer to the identifier), and the
    recognizer was called once per file, in input order, with the same
    options. *)
Theorem batch_effect_with_handle
    (a : App) (paths : list str) (language : option str) (name : str)
    (m : Model) (results : list Item) :
  model_in_use a name = Some m ->
  paths <> [] ->
  let a' := fst (transcribe_loop a paths language name results) in
  model a' = Some m
  /\ model_name a' = name
  /\ constructions a' =
     constructions a ++ (if needs_load a name then [name] else [])
  /\ recognitions a' =
     recognitions a ++ map (fun p => (p, transcribe_options language)) paths.
Proof.
  assert (Hready : forall paths a results,
            model a = Some m -> model_name a = name ->
            let a' := fst (transcribe_loop a paths language name results) in
            model a' = Some m /\ model_name a' = name
            /\ constructions a' = constructions a
            /\ recognitions a' =
               recognitions a
               ++ map (fun p => (p, transcribe_options language)) paths).
  { clear a paths results. induction paths as [|p paths IH]; intros a results Hm Hn.
    - simpl. now rewrite app_nil_r.
    - cbn [transcribe_loop].
      pose proof (transcribe_audio_fields a p language name) as He.
      destruct (transcribe_audio a p language name) as [a1 [t d]].
      cbn [fst] in He. destruct He as [E1 [E2 [E3 E4]]].
      rewrite (model_in_use_ready a name m Hm Hn) in E1, E4.
      rewrite (needs_load_same a name m Hm Hn), app_nil_r in E3.
      cbn [is_none] in E4.
      destruct (IH a1 (if truthy t
                       then results ++ [{| it_filename := basename p;
                                           it_transcription := t;
                                           it_details := d |}]
                       else results) E1 E2) as [F1 [F2 [F3 F4]]].
      repeat split; try assumption; try congruence.
      rewrite F4, E4, <- app_assoc. reflexivity. }
  intros Hm Hp. destruct paths as [|p paths]; [contradiction|].
  cbn [transcribe_loop].
  pose proof (transcribe_audio_fields a p language name) as He.
  destruct (transcribe_audio a p language name) as [a1 [t d]].
  cbn [fst] in He. destruct He as [E1 [E2 [E3 E4]]].
  rewrite Hm in E1, E4. cbn [is_none] in E4.
  destruct (Hready paths a1
              (if truthy t
               then results ++ [{| it_filename := basename p;
                                   it_transcription := t;
                                   it_details := d |}]
               else results) E1 E2) as [F1 [F2 [F3 F4]]].
  repeat split; try assumption; try congruence.
  rewrite F4, E4, <- app_assoc. reflexivity.
Qed.

(** X3.  A batch over a cache that holds no handle and whose model cannot
    be built: the construction is attempted again for every file, the
    recognizer is never called, no entry is kept, and the report of the
    handler is the summary line counting 0. *)
Theorem batch_without_handle
    (a : App) (paths : list str) (language : option str) (name : str) :
  model_in_use a name = None ->
  let a' := fst (transcribe_multiple_files a paths language name) in
  snd (transcribe_multiple_files a paths language name) = []
  /\ constructions a' = constructions a ++ repeat name (length paths)
  /\ recognitions a' = recognitions a
  /\ ((2 <= length paths)%nat ->
      snd (transcribe_handler a (Some paths) None language name)
      = summary_line 0).
Proof.
  intros Hm a'. subst a'. unfold transcribe_multiple_files.
  split; [|split; [|split]].
  - rewrite transcribe_loop_kept, Hm. unfold kept_items, outcome_with.
    simpl. induction paths as [|p paths IH]; [reflexivity|exact IH].
  - generalize (@nil Item). revert a Hm.
    induction paths as [|p paths IH]; intros a Hm results.
    + simpl. now rewrite app_nil_r.
    + cbn [transcribe_loop].
      pose proof (transcribe_audio_fields a p language name) as He.
      pose proof (model_in_use_stable a p language name) as Hs.
      destruct (transcribe_audio a p language name) as [a1 [t d]].
      cbn [fst] in He, Hs. destruct He as [_ [_ [E3 _]]].
      rewrite Hm in Hs. rewrite (IH a1 Hs), E3.
      destruct (model_in_use_none a name Hm) as [En _]. rewrite En.
      rewrite <- app_assoc. reflexivity.
  - generalize (@nil Item). revert a Hm.
    induction paths as [|p paths IH]; intros a Hm results; [reflexivity|].
    cbn [transcribe_loop].
    pose proof (transcribe_audio_fields a p language name) as He.
    pose proof (model_in_use_stable a p language name) as Hs.
    destruct (transcribe_audio a p language name) as [a1 [t d]].
    cbn [fst] in He, Hs. destruct He as [_ [_ [_ E4]]].
    rewrite Hm in Hs, E4. rewrite (IH a1 Hs), E4. simpl. now rewrite app_nil_r.
  - intros Hlen. destruct paths as [|p [|q paths]]; simpl in Hlen; try lia.
    rewrite handler_batch, Hm. unfold kept_items, outcome_with. simpl filter.
    assert (Hf : filter (fun _ : str => false) paths = []).
    { clear. induction paths; simpl; auto. }
    cbn [fst truthy]. rewrite Hf. reflexivity.
Qed.

End CacheInUse.

Section CacheFacts.
Context `{B : Backend}.

(** X4.  When another model is loaded and the requested one cannot be
    built, [transcribe_audio] swallows the load error and transcribes with
    the handle it already had; on success the report names the requested
    identifier under "Model Used", not the one that did the work. *)
Theorem failed_load_transcribes_with_old_handle
    (a : App) (audio_path : str) (language : option str) (name : str)
    (old : Model) (e : Exn) :
  model a = Some old ->
  model_name a <> name ->
  whisper_load_model name = Raise e ->
  model_in_use a name = Some old
  /\ snd (transcribe_audio a audio_path language name) =
     outcome_with (Some old) audio_path language name
  /\ (forall r,
        model_transcribe old audio_path (transcribe_options language) = Return r ->
        snd (transcribe_audio a audio_path language name) =
        (get_text r,
         details_text (get_text r) (get_language r) name (get_duration r))).
Proof.
  intros Hm Hn He.
  assert (Hu : model_in_use a name = Some old).
  { unfold model_in_use. rewrite (needs_load_other a name Hn).
    rewrite (load_model_failure a name e (needs_load_other a name Hn) He).
    exact Hm. }
  split; [exact Hu|]. rewrite transcribe_audio_outcome, Hu.
  split; [reflexivity|]. intros r Hr. unfold outcome_with. now rewrite Hr.
Qed.

Lemma init_consistent : cache_consistent init.
Proof.
  unfold cache_consistent, init, load_model. cbn [needs_load model is_none orb].
  destruct (whisper_load_model (lit "base")) as [m|e] eqn:E; simpl.
  - intros m' H. now injection H as <-.
  - discriminate.
Qed.

Lemma load_model_consistent (a : App) (name : str) :
  cache_consistent a ->
  (needs_load a name = true -> exists m, whisper_load_model name = Return m) ->
  cache_consistent (fst (load_model a name)).
Proof.
  intros Hc Hok. unfold load_model.
  destruct (needs_load a name) eqn:En; [|exact Hc].
  destruct (Hok eq_refl) as [m Hm]. rewrite Hm. simpl.
  intros m' H. injection H as <-. exact Hm.
Qed.

(** X5.  The cache built by [__init__] is consistent (its handle, if any,
    is the one built for the recorded identifier), a [load_model] whose
    construction does not fail keeps it so, and in a consistent cache a
    transcription job whose model can be built works with the handle built
    for the requested identifier. *)
Theorem consistent_cache_uses_requested_model (a : App) (name : str) (m : Model) :
  cache_consistent a ->
  whisper_load_model name = Return m ->
  cache_consistent init
  /\ cache_consistent (fst (load_model a name))
  /\ model_in_use a name = Some m.
Proof.
  intros Hc Hm. split; [exact init_consistent|]. split.
  - apply load_model_consistent; [exact Hc|]. intros _. now exists m.
  - unfold model_in_use. destruct (needs_load a name) eqn:En.
    + now rewrite (load_model_success a name m En Hm).
    + destruct (needs_load_false a name En) as [Hn [m' Hm']].
      rewrite Hm'. pose proof (Hc m' Hm') as H. rewrite Hn, Hm in H.
      now injection H as <-.
Qed.

(** X6.  [process_gradio_audio]: without a recording it answers "No audio
    provided" with an empty transcription and touches nothing; with a
    recording and a loaded handle it transcribes with that handle, under the
    recorded identifier, attempts no construction and passes no language
    option. *)
Theorem process_gradio_audio_uses_loaded_model
    (a : App) (audio_file : str) (m : Model) :
  model a = Some m ->
  process_gradio_audio a None = (a, ([], msg_no_audio_provided))
  /\ snd (process_gradio_audio a (Some audio_file)) =
     outcome_with (Some m) audio_file None (model_name a)
  /\ model (fst (process_gradio_audio a (Some audio_file))) = Some m
  /\ model_name (fst (process_gradio_audio a (Some audio_file))) = model_name a
  /\ constructions (fst (process_gradio_audio a (Some audio_file))) =
     constructions a
  /\ recognitions (fst (process_gradio_audio a (Some audio_file))) =
     recognitions a ++ [(audio_file, transcribe_options None)]
  /\ dict_get (lit "language") (transcribe_options None) = None.
Proof.
  intros Hm. split; [reflexivity|]. unfold process_gradio_audio.
  pose proof (transcribe_audio_fields a audio_file None (model_name a)) as He.
  cbn zeta in He. destruct He as [E1 [E2 [E3 E4]]].
  rewrite (model_in_use_ready a (model_name a) m Hm eq_refl) in E1, E4.
  rewrite (needs_load_same a (model_name a) m Hm eq_refl), app_nil_r in E3.
  rewrite transcribe_audio_outcome.
  rewrite (model_in_use_ready a (model_name a) m Hm eq_refl).
  repeat split; assumption.
Qed.

(** X7.  The options handed to the recognizer always hold the task
    "transcribe" and the half-precision flag of the host; they hold no
    "language" entry exactly when the selector is [None], the empty string
    or the label "Auto-detect". *)
Theorem transcribe_options_entries (language : option str) :
  dict_get (lit "task") (transcribe_options language) = Some (VStr (lit "transcribe"))
  /\ dict_get (lit "fp16") (transcribe_options language)
     = Some (VBool cuda_is_available)
  /\ (dict_get (lit "language") (transcribe_options language) = None <->
      language = None \/ language = Some [] \/ language = Some (lit "Auto-detect")).
Proof.
  split; [reflexivity|]. split; [reflexivity|].
  unfold transcribe_options, language_given.
  destruct language as [l|]; [|simpl; tauto].
  destruct (str_eqb l []) eqn:E1.
  - apply str_eqb_eq in E1. subst l. simpl. split; auto.
  - destruct (str_eqb l (lit "Auto-detect")) eqn:E2.
    + apply str_eqb_eq in E2. subst l. simpl. split; auto.
    + simpl. split; [discriminate|].
      intros [H|[H|H]]; try discriminate; injection H as ->.
      * now rewrite str_eqb_refl in E1.
      * now rewrite str_eqb_refl in E2.
Qed.

(** X8.  The status of [load_model] starts with the error glyph exactly
    when a construction was attempted and raised; in every other case it
    starts with the success glyph. *)
Theorem load_model_status_glyph (a : App) (name : str) :
  (startswith ERR_GLYPH (snd (load_model a name)) = true <->
   needs_load a name = true /\ exists e, whisper_load_model name = Raise e)
  /\ (startswith OK_GLYPH (snd (load_model a name)) =
      negb (startswith ERR_GLYPH (snd (load_model a name)))).
Proof.
  unfold load_model. destruct (needs_load a name).
  - destruct (whisper_load_model name) as [m|e]; simpl; split; try reflexivity.
    + split; [discriminate|]. intros [_ [e He]]. discriminate.
    + split; eauto.
  - simpl. split; [|reflexivity]. split; [discriminate|]. intros [H _]. discriminate.
Qed.

End CacheFacts.

(** ** The parser and the exporter on arbitrary text *)

Lemma startswith_split (p s : str) :
  startswith p s = true -> exists rest, s = p ++ rest.
Proof.
  revert s; induction p as [|c p IH]; intros s H; [now exists s|].
  destruct s as [|d s]; [discriminate|]. simpl in H.
  apply andb_true_iff in H as [Hc Hp]. apply N.eqb_eq in Hc. subst d.
  destruct (IH s Hp) as [rest ->]. now exists rest.
Qed.

(** X9.  On every line the parser treats as a language or duration line,
    [line.split(":", 1)[1]] is in range (no [IndexError]) and is what
    follows the colon of the label, so the field is that remainder,
    stripped. *)
Theorem label_line_value (line : str) :
  startswith (lit "**Detected Language:") line = true
  \/ startswith (lit "**Duration:") line = true ->
  (1 < length (split_once COLON line))%nat
  /\ (lit "**Detected Language:" ++ after_colon line = line
      \/ lit "**Duration:" ++ after_colon line = line).
Proof.
  intros [H|H]; apply startswith_split in H as [rest ->].
  - split; [simpl; lia|left; reflexivity].
  - split; [simpl; lia|right; reflexivity].
Qed.

(** *** Text that can be written *)

Lemma encodable_app (a b : str) :
  encodable (a ++ b) = encodable a && encodable b.
Proof. apply forallb_app. Qed.

Lemma encodable_incl (s t : str) :
  (forall x, In x t -> In x s) -> encodable s = true -> encodable t = true.
Proof.
  unfold encodable. rewrite !forallb_forall. intros Hi H x Hx. apply H, Hi, Hx.
Qed.

Lemma in_lstrip (x : char) (s : str) : In x (lstrip s) -> In x s.
Proof.
  induction s as [|c s IH]; [easy|]. simpl.
  destruct (is_space c); [intros H; right; auto|easy].
Qed.

Lemma in_strip (x : char) (s : str) : In x (strip s) -> In x s.
Proof.
  unfold strip, rstrip. intros H.
  apply in_lstrip, in_rev, in_lstrip, in_rev in H. exact H.
Qed.

Lemma in_skipn (x : char) (n : nat) (s : str) : In x (skipn n s) -> In x s.
Proof.
  revert s; induction n as [|n IH]; intros s; [easy|].
  destruct s as [|c s]; [easy|]. simpl. intros H. right. auto.
Qed.

Lemma in_split_once (c : char) (s : str) :
  Forall (fun l => forall x, In x l -> In x s) (split_once c s).
Proof.
  induction s as [|d s IH]; simpl.
  - constructor; [intros x []|constructor].
  - destruct (N.eqb d c).
    + constructor; [intros x []|].
      constructor; [intros x H; now right|constructor].
    + destruct (split_once c s) as [|l ls].
      * constructor; [|constructor]. intros x [H|[]]. now left.
      * inversion IH as [|? ? Hl Hls]; subst. constructor.
        -- intros x [H|H]; [now left|right; auto].
        -- eapply Forall_impl; [|exact Hls]. intros l' H x Hx. right. auto.
Qed.

Lemma in_after_colon (x : char) (line : str) :
  In x (after_colon line) -> In x line.
Proof.
  unfold after_colon. pose proof (in_split_once COLON line) as H.
  rewrite Forall_forall in H.
  destruct (nth_in_or_default 1 (split_once COLON line) []) as [Hin|Hd].
  - apply H, Hin.
  - rewrite Hd. easy.
Qed.

Lemma in_split_on (c : char) (s : str) :
  Forall (fun l => forall x, In x l -> In x s) (split_on c s).
Proof.
  induction s as [|d s IH]; simpl.
  - constructor; [intros x []|constructor].
  - destruct (N.eqb d c).
    + constructor; [intros x []|].
      eapply Forall_impl; [|exact IH]. intros l' H x Hx. right. auto.
    + destruct (split_on c s) as [|l ls].
      * constructor; [|constructor]. intros x [H|[]]. now left.
      * inversion IH as [|? ? Hl Hls]; subst. constructor.
        -- intros x [H|H]; [now left|right; auto].
        -- eapply Forall_impl; [|exact Hls]. intros l' H x Hx. right. auto.
Qed.

Lemma encodable_escape (s : str) :
  encodable s = true ->
  encodable (replace_char DQUOTE [DQUOTE; DQUOTE] s) = true.
Proof.
  induction s as [|c s IH]; [reflexivity|].
  unfold replace_char in *. cbn [flat_map]. rewrite encodable_app.
  unfold encodable at 1. cbn [forallb]. intros H.
  apply andb_true_iff in H as [Hc Hs]. rewrite (IH Hs), andb_true_r.
  destruct (N.eqb c DQUOTE); [reflexivity|].
  unfold encodable. cbn [forallb]. now rewrite Hc.
Qed.

Lemma csv_line_encodable (r : FileRec) :
  rec_encodable r -> encodable (csv_line r) = true.
Proof.
  intros [Hf [Hl [Hd Ht]]]. unfold csv_line.
  rewrite !encodable_app, Hf, Hl, Hd.
  rewrite (encodable_escape _ (encodable_incl _ _ (fun x => in_strip x _) Ht)).
  reflexivity.
Qed.

Lemma parse_step_encodable (results : list FileRec) (cur : FileRec) (line : str) :
  encodable line = true ->
  Forall rec_encodable results -> rec_encodable cur ->
  Forall rec_encodable (fst (parse_step (results, cur) line))
  /\ rec_encodable (snd (parse_step (results, cur) line)).
Proof.
  intros Hline Hres Hcur.
  assert (Hstrip : forall t, (forall x, In x t -> In x line) ->
                             encodable (strip t) = true).
  { intros t Ht. apply (encodable_incl line); [|exact Hline].
    intros x Hx. apply Ht, in_strip, Hx. }
  assert (Hflush : Forall rec_encodable (results ++ [cur])).
  { apply Forall_app. split; [exact Hres|]. now constructor. }
  destruct Hcur as [Hf [Hl [Hd Ht]]].
  unfold parse_step.
  destruct (startswith (lit "FILE:") line).
  { cbn [fst snd]. split.
    - destruct (rec_nonempty cur); assumption.
    - repeat split; try reflexivity. cbn [filename get_or_empty].
      apply Hstrip. intros x. apply in_skipn. }
  destruct (startswith (lit "**Detected Language:") line).
  { cbn [fst snd]. split; [exact Hres|].
    repeat split; try assumption. cbn [language get_or_empty].
    apply Hstrip. intros x. apply in_after_colon. }
  destruct (startswith (lit "**Duration:") line).
  { cbn [fst snd]. split; [exact Hres|].
    repeat split; try assumption. cbn [duration get_or_empty].
    apply Hstrip. intros x. apply in_after_colon. }
  destruct (startswith SUMMARY_PREFIX line).
  { cbn [fst snd]. split; [exact Hres|]. repeat split; assumption. }
  destruct (startswith DELIMITER line).
  { destruct (rec_nonempty cur); cbn [fst snd].
    - split; [|repeat split; reflexivity].
      apply Forall_app. split; [exact Hres|]. constructor; [|constructor].
      repeat split; assumption.
    - split; [exact Hres|]. repeat split; assumption. }
  destruct (rec_nonempty cur && negb (startswith (lit "**") line)
            && truthy (strip line)); cbn [fst snd].
  - split; [exact Hres|]. repeat split; try assumption.
    cbn [transcription get_or_empty].
    rewrite !encodable_app, Ht, Hline. reflexivity.
  - split; [exact Hres|]. repeat split; assumption.
Qed.

Lemma parse_records_encodable (transcription_text : str) :
  encodable transcription_text = true ->
  Forall rec_encodable (parse_records transcription_text).
Proof.
  intros Ht. unfold parse_records, parse_loop.
  assert (Hlines : Forall (fun l => encodable l = true)
                     (split_on NL transcription_text)).
  { eapply Forall_impl; [|apply in_split_on].
    intros l Hl. apply (encodable_incl transcription_text); assumption. }
  assert (Hinv : forall lines st,
            Forall (fun l => encodable l = true) lines ->
            Forall rec_encodable (fst st) -> rec_encodable (snd st) ->
            Forall rec_encodable (fst (fold_left parse_step lines st))).
  { induction lines as [|l lines IH]; intros [results cur] Hl Hr Hc;
      [exact Hr|].
    inversion Hl as [|? ? Hl1 Hl2]; subst. cbn [fold_left].
    destruct (parse_step_encodable results cur l Hl1 Hr Hc) as [H1 H2].
    apply IH; assumption. }
  apply Hinv; [exact Hlines|constructor|repeat split; reflexivity].
Qed.

Lemma csv_row_df_row (r : FileRec) : csv_row (df_row r) = Some (csv_line r).
Proof. reflexivity. Qed.

Lemma write_rows_df_data (rs : list FileRec) :
  Forall rec_encodable rs ->
  forall written,
  write_rows (df_data rs) written =
  (written ++ concat (map csv_line rs), true).
Proof.
  induction 1 as [|r rs Hr _ IH]; intros written.
  - simpl. now rewrite app_nil_r.
  - unfold df_data in *. cbn [map write_rows].
    rewrite csv_row_df_row, (csv_line_encodable r Hr), IH.
    cbn [concat]. now rewrite <- app_assoc.
Qed.

(** X10.  On every text without surrogate that it classifies as a batch,
    when the directory can be made and the file opened, [export_handler]
    returns the path of a ".csv" file in the new directory and writes the
    header row followed by one line per parsed record, in order: every row
    has its four columns and every line can be encoded, so the writing loop
    never stops early. *)
Theorem export_handler_writes_all_records
    (d : Disk) (h : Host) (transcription_text tmp : str) :
  classify transcription_text = BatchReport ->
  encodable transcription_text = true ->
  mkdtemp h = Return tmp ->
  open_error h = None ->
  let path :=
    path_join tmp (lit "batch_transcription" ++ lit "_" ++ now_stamp h
                   ++ lit ".csv") in
  export_handler d h transcription_text =
  (write_file (make_dir d tmp) path
     (CSV_HEADER ++ concat (map csv_line (parse_records transcription_text))),
   Some path).
Proof.
  intros Hc He Hm Ho path. unfold export_handler. rewrite Hc.
  unfold export_batch_results. rewrite Hm, Ho.
  rewrite (write_rows_df_data _ (parse_records_encodable _ He)).
  reflexivity.
Qed.

Lemma csv_row_written (row : list str) :
  row <> [] -> Forall (fun f => encodable f = true) row ->
  exists line, csv_row row = Some line /\ encodable line = true.
Proof.
  intros Hne Hrow. destruct row as [|r0 row]; [contradiction|].
  eexists. split; [reflexivity|].
  assert (Hnth : forall n, encodable (nth n (r0 :: row) []) = true).
  { intros n. destruct (nth_in_or_default n (r0 :: row) []) as [Hin|Hd].
    - rewrite Forall_forall in Hrow. apply Hrow, Hin.
    - now rewrite Hd. }
  rewrite !encodable_app, (Hnth 2%nat), (Hnth 3%nat).
  inversion Hrow as [|? ? H0 Hrest]; subst. rewrite H0.
  destruct row as [|r1 row]; [reflexivity|].
  inversion Hrest as [|? ? H1 _]; subst.
  now rewrite (encodable_escape r1 H1).
Qed.

Lemma write_rows_stops (pre post : list (list str)) :
  Forall (fun row => row <> [] /\ Forall (fun f => encodable f = true) row) pre ->
  forall written,
  snd (write_rows pre written) = true
  /\ write_rows (pre ++ [] :: post) written =
     (fst (write_rows pre written), false).
Proof.
  induction 1 as [|row pre [Hne Henc] _ IH]; intros written;
    [split; reflexivity|].
  destruct (csv_row_written row Hne Henc) as [line [Hl He]].
  cbn [app write_rows]. rewrite Hl, He. apply IH.
Qed.

(** X11.  [export_batch_results] on rows of which one is empty, the rows
    before it being non-empty and without surrogate: [row[0]] raises on the
    empty row, the call returns [None], and yet the file stays on disk with
    the header and the lines of all the rows before the empty one. *)
Theorem export_batch_stops_at_empty_row
    (d : Disk) (h : Host) (pre post : list (list str)) (name tmp : str) :
  Forall (fun row => row <> [] /\ Forall (fun f => encodable f = true) row) pre ->
  mkdtemp h = Return tmp ->
  open_error h = None ->
  snd (write_rows pre CSV_HEADER) = true
  /\ export_batch_results d h (Some (pre ++ [] :: post)) name =
     (write_file (make_dir d tmp)
        (path_join tmp (name ++ lit "_" ++ now_stamp h ++ lit ".csv"))
        (fst (write_rows pre CSV_HEADER)),
      None).
Proof.
  intros Hpre Hm Ho.
  destruct (write_rows_stops pre post Hpre CSV_HEADER) as [H1 H2].
  split; [exact H1|].
  unfold export_batch_results. rewrite Hm, Ho, H2. reflexivity.
Qed.

(** X12.  [export_transcription] returns a path exactly when the text is
    not empty, the directory can be made, the file opened, and the title
    line and the text hold no surrogate.  It then adds one file, at that
    path, holding the dated title, a rule of 50 equals signs and the text,
    and keeps every file that was there.  When it returns [None], either no
    file was added (empty text, no directory, no file), or a write raised
    and the file is left with what was written before: nothing when the
    title cannot be encoded, the title and the rule when the text cannot. *)
Theorem export_transcription_outcome
    (d : Disk) (h : Host) (transcription name : str) :
  let title := lit "Transcription - " ++ now_header h ++ [NL] in
  let rule := times 61 50 ++ [NL; NL] in
  match snd (export_transcription d h transcription name) with
  | Some path =>
      transcription <> [] /\ open_error h = None
      /\ encodable title = true /\ encodable transcription = true
      /\ exists tmp,
           mkdtemp h = Return tmp
           /\ path = path_join tmp (name ++ lit "_" ++ now_stamp h ++ lit ".txt")
           /\ files (fst (export_transcription d h transcription name)) =
              (path, title ++ rule ++ transcription) :: files d
  | None =>
      (files (fst (export_transcription d h transcription name)) = files d
       /\ (transcription = [] \/ (exists e, mkdtemp h = Raise e)
           \/ exists e, open_error h = Some e))
      \/ (exists tmp,
            mkdtemp h = Return tmp /\ open_error h = None
            /\ transcription <> []
            /\ encodable title && encodable transcription = false
            /\ files (fst (export_transcription d h transcription name)) =
               (path_join tmp (name ++ lit "_" ++ now_stamp h ++ lit ".txt"),
                if encodable title then title ++ rule else [])
               :: files d)
  end.
Proof.
  intros title rule. unfold export_transcription.
  destruct transcription as [|c t]; cbn [truthy negb]; [simpl; auto|].
  destruct (mkdtemp h) as [tmp|e]; [|simpl; left; eauto].
  destruct (open_error h) as [e|]; [simpl; left; eauto|].
  cbn [write_all]. fold title. fold rule.
  change (encodable rule) with true. cbv iota.
  destruct (encodable title) eqn:Et.
  - destruct (encodable (c :: t)) eqn:Ec; cbn [fst snd].
    + split; [discriminate|]. repeat split. exists tmp.
      split; [reflexivity|]. split; [reflexivity|].
      cbn [files write_file make_dir app]. now rewrite <- app_assoc.
    + right. exists tmp. repeat split; try discriminate.
  - cbn [fst snd]. right. exists tmp. repeat split; try discriminate.
Qed.

Lemma count_char_app (c : char) (a b : str) :
  count_char c (a ++ b) = (count_char c a + count_char c b)%nat.
Proof. unfold count_char. now rewrite filter_app, length_app. Qed.

Lemma count_char_cons (c x : char) (s : str) :
  count_char c (x :: s) =
  ((if N.eqb c x then 1 else 0) + count_char c s)%nat.
Proof. unfold count_char. cbn [filter]. now destruct (N.eqb c x). Qed.

Lemma count_char_escape (s : str) :
  count_char DQUOTE (replace_char DQUOTE [DQUOTE; DQUOTE] s)
  = (2 * count_char DQUOTE s)%nat.
Proof.
  induction s as [|c s IH]; [reflexivity|].
  unfold replace_char in *. cbn [flat_map].
  rewrite count_char_app, IH, count_char_cons. rewrite (N.eqb_sym DQUOTE c).
  destruct (N.eqb c DQUOTE) eqn:E.
  - change (count_char DQUOTE [DQUOTE; DQUOTE]) with 2%nat. lia.
  - rewrite count_char_cons, (N.eqb_sym DQUOTE c), E.
    change (count_char DQUOTE []) with 0%nat. lia.
Qed.

(** X13.  In a CSV row only the transcription is escaped: each of its
    double quotes is doubled, while a double quote in the file name, the
    language or the duration is written as it is.  The line thus holds the
    eight quotes of the four fields, twice the quotes of the transcription,
    and the quotes of the three other values. *)
Theorem csv_row_quotes (f t l dur : str) :
  exists line,
    csv_row [f; t; l; dur] = Some line
    /\ count_char DQUOTE line =
       (8 + count_char DQUOTE f + 2 * count_char DQUOTE t
        + count_char DQUOTE l + count_char DQUOTE dur)%nat.
Proof.
  eexists. split; [reflexivity|].
  cbn [nth]. rewrite !count_char_app, count_char_escape.
  change (count_char DQUOTE [DQUOTE]) with 1%nat.
  change (count_char DQUOTE [DQUOTE; 44; DQUOTE]) with 2%nat.
  change (count_char DQUOTE [DQUOTE; NL]) with 1%nat.
  lia.
Qed.

(** ** The report of a batch *)

Lemma contains_of_startswith (p s : str) :
  startswith p s = true -> contains p s = true.
Proof. intros H. destruct s; simpl; now rewrite H. Qed.

Lemma contains_prefix (p b : str) : contains p (p ++ b) = true.
Proof. apply contains_of_startswith, startswith_app. Qed.

Lemma contains_app_r (p a b : str) :
  contains p b = true -> contains p (a ++ b) = true.
Proof.
  intros H. induction a as [|x a IH]; [exact H|].
  cbn [app contains]. rewrite IH. apply orb_true_r.
Qed.

Lemma contains_marker_header (x : str) :
  contains (lit "FILE:") (lit "FILE: " ++ x) = true.
Proof. apply (contains_prefix (lit "FILE:") (SP :: x)). Qed.

(** X14.  The report of a batch that kept at least one entry is always
    classified as a batch report, whatever its entries hold.  The report of
    a batch that kept none is the summary line alone: it is classified as a
    single-item report, and [export_handler] writes it out as a text file. *)
Theorem batch_report_classification (results : list Item) :
  results <> [] ->
  classify (format_batch results) = BatchReport
  /\ classify (format_batch []) = SingleReport
  /\ (forall d h,
        export_handler d h (format_batch []) =
        export_transcription d h (summary_line 0) (lit "transcription")).
Proof.
  intros Hne. split; [|split; [vm_compute; reflexivity|]].
  - destruct results as [|it rest]; [contradiction|].
    rewrite format_batch_sections. cbn [map concat].
    unfold classify.
    assert (Ht : truthy (summary_line (length (it :: rest))
                         ++ file_section it ++ concat (map file_section rest))
                 = true) by reflexivity.
    rewrite Ht. cbn [negb].
    assert (Hf : contains (lit "FILE:")
                   (summary_line (length (it :: rest))
                    ++ file_section it ++ concat (map file_section rest)) = true).
    { apply contains_app_r. unfold file_section. rewrite <- !app_assoc.
      apply contains_marker_header. }
    assert (Hd : contains DELIMITER
                   (summary_line (length (it :: rest))
                    ++ file_section it ++ concat (map file_section rest)) = true).
    { apply contains_app_r. unfold file_section. rewrite <- !app_assoc.
      do 5 apply contains_app_r. apply contains_prefix. }
    now rewrite Hf, Hd.
  - intros d h. unfold export_handler.
    change (classify (format_batch [])) with SingleReport. reflexivity.
Qed.

Lemma report_lines (R : list TranscriptionResult) :
  Forall readable R ->
  split_on NL (format_batch (map item_of R)) =
  (SUMMARY_PREFIX ++ SP :: decimal (N.of_nat (length (map item_of R)))
   ++ lit " files successfully")
  :: [] :: concat (map section_lines R) ++ [[]].
Proof.
  intros HR. rewrite format_batch_sections. unfold summary_line.
  set (n := length (map item_of R)).
  rewrite <- !app_assoc. cbn [app].
  rewrite (app_assoc OK_GLYPH (lit " Processed ")).
  rewrite split_on_line3
    by (apply decimal_no_newline || (apply not_in_by_scan; reflexivity)).
  rewrite split_on_head, sections_split by exact HR.
  reflexivity.
Qed.

Lemma filter_plain_lines (p : str) (ls : list str) :
  (forall l, plain_line l = true -> startswith p l = false) ->
  forallb plain_line ls = true ->
  filter (startswith p) ls = [].
Proof.
  intros Hp. induction ls as [|l ls IH]; [reflexivity|].
  cbn [forallb filter]. intros H. apply andb_true_iff in H as [Hl Hls].
  now rewrite (Hp l Hl), IH.
Qed.

Lemma plain_not_header (l : str) :
  plain_line l = true -> startswith (lit "FILE:") l = false.
Proof.
  unfold plain_line. intros H.
  apply andb_true_iff in H as [H _]. apply andb_true_iff in H as [H _].
  apply andb_true_iff in H as [H _]. apply andb_true_iff in H as [_ H].
  now apply negb_true_iff in H.
Qed.

Lemma plain_not_delimiter (l : str) :
  plain_line l = true -> startswith DELIMITER l = false.
Proof.
  unfold plain_line. intros H.
  apply andb_true_iff in H as [_ H]. now apply negb_true_iff in H.
Qed.

Lemma section_headers (r : TranscriptionResult) :
  forallb plain_line (split_on NL (tr_text r)) = true ->
  length (filter (startswith (lit "FILE:")) (section_lines r)) = 1%nat
  /\ length (filter (startswith DELIMITER) (section_lines r)) = 1%nat.
Proof.
  intros Hp. unfold section_lines. rewrite !filter_app, !length_app.
  rewrite (filter_plain_lines _ _ plain_not_header Hp).
  rewrite (filter_plain_lines _ _ plain_not_delimiter Hp).
  destruct (tr_duration r) as [d|]; split; reflexivity.
Qed.

Lemma sections_headers (R : list TranscriptionResult) :
  Forall readable R ->
  length (filter (startswith (lit "FILE:")) (concat (map section_lines R)))
  = length R
  /\ length (filter (startswith DELIMITER) (concat (map section_lines R)))
     = length R.
Proof.
  induction 1 as [|r R [_ [_ [_ Hp]]] _ [IH1 IH2]]; [split; reflexivity|].
  destruct (section_headers r Hp) as [H1 H2].
  cbn [map concat length]. rewrite !filter_app, !length_app, H1, H2, IH1, IH2.
  split; reflexivity.
Qed.

(** X15.  The report of a batch of readable results holds exactly one line
    starting with [FILE:] and exactly one line starting with the rule of 50
    hyphens per result. *)
Theorem batch_report_counts_sections (R : list TranscriptionResult) :
  Forall readable R ->
  count_lines_starting (lit "FILE:") (format_batch (map item_of R)) = length R
  /\ count_lines_starting DELIMITER (format_batch (map item_of R)) = length R.
Proof.
  intros HR. unfold count_lines_starting. rewrite (report_lines R HR).
  destruct (sections_headers R HR) as [H1 H2].
  cbn [filter].
  change (startswith (lit "FILE:")
            (SUMMARY_PREFIX ++ SP :: decimal (N.of_nat (length (map item_of R)))
             ++ lit " files successfully")) with false.
  change (startswith DELIMITER
            (SUMMARY_PREFIX ++ SP :: decimal (N.of_nat (length (map item_of R)))
             ++ lit " files successfully")) with false.
  change (startswith (lit "FILE:") []) with false.
  change (startswith DELIMITER []) with false.
  cbv iota. rewrite !filter_app, !length_app, H1, H2. simpl. lia.
Qed.

Lemma step_outside_record (results : list FileRec) (line : str) :
  record_line line = false ->
  parse_step (results, empty_rec) line = (results, empty_rec).
Proof.
  unfold record_line. intros H.
  apply orb_false_iff in H as [H H3]. apply orb_false_iff in H as [H1 H2].
  unfold parse_step. rewrite H1, H2, H3.
  destruct (startswith SUMMARY_PREFIX line); [reflexivity|].
  destruct (startswith DELIMITER line); reflexivity.
Qed.

(** X16.  Outside a record the parser ignores every line that is not a
    [FILE:], language or duration line: a text without such a line yields no
    record, whatever else it holds. *)
Theorem text_without_record_lines (transcription_text : str) :
  forallb (fun line => negb (record_line line))
          (split_on NL transcription_text) = true ->
  parse_loop transcription_text = ([], empty_rec)
  /\ df_data (parse_records transcription_text) = [].
Proof.
  intros H.
  assert (Hl : parse_loop transcription_text = ([], empty_rec)).
  { unfold parse_loop. generalize (@nil FileRec).
    induction (split_on NL transcription_text) as [|l ls IH]; intros results;
      [reflexivity|].
    cbn [forallb] in H. apply andb_true_iff in H as [Hl Hls].
    apply negb_true_iff in Hl.
    cbn [fold_left]. rewrite (step_outside_record results l Hl).
    now apply IH. }
  split; [exact Hl|]. unfold parse_records. now rewrite Hl.
Qed.

Lemma split_on_parts (c : char) (s : str) :
  Forall (fun l => ~ In c l) (split_on c s).
Proof.
  induction s as [|x s IH]; simpl; [constructor; [easy|constructor]|].
  destruct (N.eqb_spec x c) as [->|Hx]; [constructor; [easy|exact IH]|].
  destruct (split_on c s) as [|l ls]; [constructor; [|constructor]|].
  - intros [H|[]]. congruence.
  - inversion IH as [|? ? Hl Hls]; subst. constructor; [|exact Hls].
    intros [H|H]; [congruence|contradiction].
Qed.

Lemma last_in (A : Type) (l : list A) (d : A) : l <> [] -> In (last l d) l.
Proof.
  induction l as [|x l IH]; [contradiction|]. intros _.
  destruct l as [|y l]; [now left|]. right. apply IH. discriminate.
Qed.

Lemma basename_no_slash (p : str) : ~ In 47 (basename p).
Proof.
  unfold basename. pose proof (split_on_parts 47 p) as H.
  rewrite Forall_forall in H. apply H, last_in, split_on_not_nil.
Qed.

Lemma basename_of_join (dir f : str) :
  ~ In 47 f -> basename (dir ++ 47 :: f) = f.
Proof.
  intros Hf. unfold basename.
  rewrite split_on_app, (split_on_single 47 f Hf). apply last_last.
Qed.

Section FileNames.
Context `{B : Backend}.

(** X17.  The file name of every entry of a batch is the last component
    of its path: it holds no slash, and two files of the same name in
    different directories get the same [FILE:] name. *)
Theorem batch_filenames_are_base_names
    (a : App) (paths : list str) (language : option str) (name : str) :
  Forall (fun it => ~ In 47 (it_filename it))
         (snd (transcribe_multiple_files a paths language name))
  /\ (forall dir1 dir2 f, ~ In 47 f ->
        basename (dir1 ++ 47 :: f) = f /\ basename (dir2 ++ 47 :: f) = f).
Proof.
  split.
  - unfold transcribe_multiple_files. rewrite transcribe_loop_kept.
    cbn [app]. unfold kept_items. rewrite Forall_forall.
    intros it Hin. apply in_map_iff in Hin as [p [<- _]].
    apply basename_no_slash.
  - intros dir1 dir2 f Hf. split; now apply basename_of_join.
Qed.

End FileNames.

(** ** From the report to the exported file *)

(** X18.  Exporting the report of a batch of readable results that holds
    no surrogate, when the directory can be made and the file opened: the
    report is recognised as a batch and the file holds the header row
    followed by one line per result, in input order. *)
Theorem export_of_batch_report
    (d : Disk) (h : Host) (R : list TranscriptionResult) (tmp : str) :
  R <> [] ->
  Forall readable R ->
  encodable (format_batch (map item_of R)) = true ->
  mkdtemp h = Return tmp ->
  open_error h = None ->
  let path :=
    path_join tmp (lit "batch_transcription" ++ lit "_" ++ now_stamp h
                   ++ lit ".csv") in
  export_handler d h (format_batch (map item_of R)) =
  (write_file (make_dir d tmp) path
     (CSV_HEADER ++ concat (map csv_line (map record_of R))),
   Some path).
Proof.
  intros Hne HR He Hm Ho path. unfold export_handler.
  assert (Hc : classify (format_batch (map item_of R)) = BatchReport).
  { destruct R as [|r R']; [contradiction|].
    rewrite format_batch_sections. cbn [map concat]. unfold classify.
    assert (Ht : truthy (summary_line (length (item_of r :: map item_of R'))
                         ++ file_section (item_of r)
                         ++ concat (map file_section (map item_of R')))
                 = true) by reflexivity.
    rewrite Ht. cbn [negb].
    assert (Hf : contains (lit "FILE:")
                   (summary_line (length (item_of r :: map item_of R'))
                    ++ file_section (item_of r)
                    ++ concat (map file_section (map item_of R'))) = true).
    { apply contains_app_r. unfold file_section. rewrite <- !app_assoc.
      apply contains_marker_header. }
    assert (Hd : contains DELIMITER
                   (summary_line (length (item_of r :: map item_of R'))
                    ++ file_section (item_of r)
                    ++ concat (map file_section (map item_of R'))) = true).
    { apply contains_app_r. unfold file_section. rewrite <- !app_assoc.
      do 5 apply contains_app_r. apply contains_prefix. }
    now rewrite Hf, Hd. }
  rewrite Hc. unfold export_batch_results.
  pose proof (parse_records_encodable _ He) as Hrec.
  rewrite Hm, Ho, (write_rows_df_data _ Hrec), (parse_format_batch R HR).
  reflexivity.
Qed.

Lemma path_join_inside (tmp b : str) :
  startswith [47] b = false -> startswith tmp (path_join tmp b) = true.
Proof.
  intros Hb. unfold path_join. rewrite Hb.
  destruct (rev tmp) as [|c r] eqn:E.
  - apply (f_equal (@rev char)) in E. rewrite rev_involutive in E.
    subst tmp. reflexivity.
  - destruct (N.eqb c 47); apply startswith_app.
Qed.

(** X19.  Whenever [export_handler] returns a path, that path lies under
    the directory just made for it, exactly one file was added to the disk,
    at that path, and every file that was there is kept. *)
Theorem export_handler_adds_one_file
    (d : Disk) (h : Host) (transcription_text path : str) :
  snd (export_handler d h transcription_text) = Some path ->
  exists tmp content,
    mkdtemp h = Return tmp
    /\ startswith tmp path = true
    /\ dirs (fst (export_handler d h transcription_text)) = tmp :: dirs d
    /\ files (fst (export_handler d h transcription_text)) =
       (path, content) :: files d.
Proof.
  unfold export_handler.
  destruct (classify transcription_text); [discriminate| |].
  - unfold export_batch_results.
    destruct (mkdtemp h) as [tmp|e]; [|discriminate].
    destruct (open_error h); [discriminate|].
    destruct (write_rows (df_data (parse_records transcription_text)) CSV_HEADER)
      as [written [|]]; cbn [fst snd]; [|discriminate].
    intros H. injection H as <-.
    exists tmp. eexists. split; [reflexivity|]. split; [|split; reflexivity].
    apply path_join_inside. reflexivity.
  - unfold export_transcription.
    destruct (truthy transcription_text); [|discriminate]. cbn [negb].
    destruct (mkdtemp h) as [tmp|e]; [|discriminate].
    destruct (open_error h); [discriminate|].
    destruct (write_all
                [lit "Transcription - " ++ now_header h ++ [NL];
                 times 61 50 ++ [NL; NL]; transcription_text] [])
      as [written [|]]; cbn [fst snd]; [|discriminate].
    intros H. injection H as <-.
    exists tmp. eexists. split; [reflexivity|]. split; [|split; reflexivity].
    apply path_join_inside. reflexivity.
Qed.

Section Reports.
Context `{B : Backend}.

(** X20.  The report of [transcribe_audio] starts with the error glyph
    exactly when no handle was available or the recognizer raised, and the
    transcription text is then empty; otherwise the report starts with the
    "Transcription" heading. *)
Theorem transcribe_audio_error_report
    (a : App) (audio_path : str) (language : option str) (name : str) :
  let out := snd (transcribe_audio a audio_path language name) in
  (startswith ERR_GLYPH (snd out) = true <->
   model_in_use a name = None
   \/ exists m e, model_in_use a name = Some m
                  /\ model_transcribe m audio_path (transcribe_options language)
                     = Raise e)
  /\ (startswith ERR_GLYPH (snd out) = true -> fst out = [])
  /\ (startswith ERR_GLYPH (snd out) = false ->
      startswith (lit "**Transcription:**") (snd out) = true).
Proof.
  intros out. subst out. rewrite transcribe_audio_outcome. unfold outcome_with.
  destruct (model_in_use a name) as [m|].
  - destruct (model_transcribe m audio_path (transcribe_options language))
      as [r|e] eqn:E; cbn [fst snd].
    + change (startswith ERR_GLYPH (format_result r name)) with false.
      split; [|split; [discriminate|reflexivity]].
      split; [discriminate|].
      intros [H|[m' [e [H1 H2]]]]; [discriminate|].
      injection H1 as <-. congruence.
    + change (startswith ERR_GLYPH (msg_transcription_error e)) with true.
      split; [|split; [reflexivity|discriminate]].
      split; [|reflexivity]. intros _. right. now exists m, e.
  - cbn [fst snd].
    change (startswith ERR_GLYPH
              (msg_transcription_error none_has_no_transcribe)) with true.
    split; [|split; [reflexivity|discriminate]].
    split; [|reflexivity]. intros _. now left.
Qed.

End Reports.

(** ** The further properties on the sample data *)

Lemma batch_effect_with_handle_witness :
  let a := @fresh_app sample_backend in
  let paths := [lit "/in/a.wav"; lit "/in/bad.wav"] in
  let a' := fst (transcribe_loop a paths None (lit "base") []) in
  model_in_use a (lit "base") = Some 0%nat
  /\ constructions a' = [lit "base"]
  /\ map fst (recognitions a') = paths.
Proof.
  intros a paths a'.
  assert (Hp : paths <> []) by discriminate.
  pose proof (@batch_effect_with_handle sample_backend a paths None (lit "base")
                0%nat [] eq_refl Hp) as H.
  split; [reflexivity|]. split.
  - exact (proj1 (proj2 (proj2 H))).
  - subst a'. rewrite (proj2 (proj2 (proj2 H))). reflexivity.
Defined.

Lemma batch_without_handle_witness :
  let a := @fresh_app sample_backend in
  let paths := [lit "/in/a.wav"; lit "/in/c.wav"] in
  model_in_use a (lit "large-v9") = None
  /\ constructions (fst (transcribe_multiple_files a paths None (lit "large-v9")))
     = [lit "large-v9"; lit "large-v9"].
Proof.
  intros a paths. split; [reflexivity|].
  exact (proj1 (proj2 (@batch_without_handle sample_backend a paths None
                         (lit "large-v9") eq_refl))).
Defined.

Lemma failed_load_transcribes_with_old_handle_witness :
  let a := @init sample_backend in
  model a = Some 0%nat
  /\ model_name a <> lit "large-v9"
  /\ model_in_use a (lit "large-v9") = Some 0%nat.
Proof.
  intros a.
  assert (Hn : model_name a <> lit "large-v9") by discriminate.
  split; [reflexivity|]. split; [exact Hn|].
  exact (proj1 (@failed_load_transcribes_with_old_handle sample_backend a
                  (lit "/in/a.wav") None (lit "large-v9") 0%nat
                  (lit "unknown model") eq_refl Hn eq_refl)).
Defined.

Lemma consistent_cache_uses_requested_model_witness :
  let a := @init sample_backend in
  cache_consistent a /\ model_in_use a (lit "small") = Some 1%nat.
Proof.
  intros a. split; [exact (@init_consistent sample_backend)|].
  exact (proj2 (proj2 (@consistent_cache_uses_requested_model sample_backend a
                         (lit "small") 1%nat
                         (@init_consistent sample_backend) eq_refl))).
Defined.

Lemma process_gradio_audio_uses_loaded_model_witness :
  let a := @init sample_backend in
  model a = Some 0%nat
  /\ constructions (fst (process_gradio_audio a (Some (lit "/tmp/mic.wav"))))
     = constructions a.
Proof.
  intros a. split; [reflexivity|].
  exact (proj1 (proj2 (proj2 (proj2 (proj2
           (@process_gradio_audio_uses_loaded_model sample_backend a
              (lit "/tmp/mic.wav") 0%nat eq_refl)))))).
Defined.

Lemma label_line_value_witness :
  startswith (lit "**Detected Language:") (lit "**Detected Language:** en") = true
  /\ (1 < length (split_once COLON (lit "**Detected Language:** en")))%nat.
Proof.
  split; [reflexivity|].
  exact (proj1 (label_line_value (lit "**Detected Language:** en")
                  (or_introl eq_refl))).
Defined.

Lemma export_handler_writes_all_records_witness :
  classify (format_batch (map item_of scenario)) = BatchReport
  /\ encodable (format_batch (map item_of scenario)) = true
  /\ snd (export_handler empty_disk sample_host
            (format_batch (map item_of scenario)))
     = Some (lit "/tmp/tmpabc/batch_transcription_20240102_030405.csv").
Proof.
  split; [reflexivity|]. split; [reflexivity|].
  rewrite (export_handler_writes_all_records empty_disk sample_host
             (format_batch (map item_of scenario)) (lit "/tmp/tmpabc")
             eq_refl eq_refl eq_refl eq_refl).
  reflexivity.
Defined.

Lemma export_batch_stops_at_empty_row_witness :
  Forall (fun row : list str =>
            row <> [] /\ Forall (fun f => encodable f = true) row)
         [[lit "a.wav"; lit "hello"]]
  /\ snd (export_batch_results empty_disk sample_host
            (Some ([[lit "a.wav"; lit "hello"]] ++ [] :: [[lit "b.wav"]]))
            (lit "batch_transcription")) = None.
Proof.
  assert (Hpre : Forall (fun row : list str =>
                           row <> [] /\ Forall (fun f => encodable f = true) row)
                   [[lit "a.wav"; lit "hello"]]).
  { constructor; [|constructor]. split; [discriminate|].
    constructor; [reflexivity|]. constructor; [reflexivity|constructor]. }
  split; [exact Hpre|].
  rewrite (proj2 (export_batch_stops_at_empty_row empty_disk sample_host
                    [[lit "a.wav"; lit "hello"]] [[lit "b.wav"]]
                    (lit "batch_transcription") (lit "/tmp/tmpabc")
                    Hpre eq_refl eq_refl)).
  reflexivity.
Defined.

Lemma batch_report_classification_witness :
  map item_of scenario <> []
  /\ classify (format_batch (map item_of scenario)) = BatchReport.
Proof.
  assert (Hne : map item_of scenario <> []) by discriminate.
  split; [exact Hne|].
  exact (proj1 (batch_report_classification (map item_of scenario) Hne)).
Defined.

Lemma batch_report_counts_sections_witness :
  Forall readable scenario
  /\ count_lines_starting (lit "FILE:") (format_batch (map item_of scenario))
     = 2%nat.
Proof.
  split; [exact scenario_readable|].
  exact (proj1 (batch_report_counts_sections scenario scenario_readable)).
Defined.

Lemma text_without_record_lines_witness :
  forallb (fun line => negb (record_line line)) (split_on NL prose_report) = true
  /\ df_data (parse_records prose_report) = [].
Proof.
  split; [reflexivity|].
  exact (proj2 (text_without_record_lines prose_report eq_refl)).
Defined.

Lemma export_of_batch_report_witness :
  scenario <> [] /\ Forall readable scenario
  /\ encodable (format_batch (map item_of scenario)) = true
  /\ snd (export_handler empty_disk sample_host
            (format_batch (map item_of scenario)))
     = Some (lit "/tmp/tmpabc/batch_transcription_20240102_030405.csv").
Proof.
  assert (Hne : scenario <> []) by discriminate.
  split; [exact Hne|]. split; [exact scenario_readable|].
  split; [reflexivity|].
  rewrite (export_of_batch_report empty_disk sample_host scenario
             (lit "/tmp/tmpabc") Hne scenario_readable eq_refl eq_refl eq_refl).
  reflexivity.
Defined.

Lemma export_handler_adds_one_file_witness :
  snd (export_handler empty_disk sample_host (lit "hello"))
  = Some (lit "/tmp/tmpabc/transcription_20240102_030405.txt")
  /\ exists tmp content,
       mkdtemp sample_host = Return tmp
       /\ startswith tmp (lit "/tmp/tmpabc/transcription_20240102_030405.txt")
          = true
       /\ dirs (fst (export_handler empty_disk sample_host (lit "hello")))
          = tmp :: dirs empty_disk
       /\ files (fst (export_handler empty_disk sample_host (lit "hello")))
          = (lit "/tmp/tmpabc/transcription_20240102_030405.txt", content)
            :: files empty_disk.
Proof.
  split; [reflexivity|].
  exact (export_handler_adds_one_file empty_disk sample_host (lit "hello")
           (lit "/tmp/tmpabc/transcription_20240102_030405.txt") eq_refl).
Defined.

(** ** Revisited properties of the cache and of partial failure *)

(** C8 (the claim fails here).  After [__init__] the model "base" is the
    active one: two calls of [load_model] for "base", both answered with a
    success status, construct nothing. *)
Lemma load_model_twice_after_init_constructs_nothing :
  let a := @init sample_backend in
  let a1 := fst (load_model a (lit "base")) in
  let a2 := fst (load_model a1 (lit "base")) in
  constructions a = [lit "base"]
  /\ snd (load_model a (lit "base")) = msg_already (lit "base")
  /\ snd (load_model a1 (lit "base")) = msg_already (lit "base")
  /\ constructions a2 = constructions a.
Proof. repeat split. Qed.

Lemma section_marker_lines (r : TranscriptionResult) :
  forallb plain_line (split_on NL (tr_text r)) = true ->
  filter (startswith (lit "FILE:")) (section_lines r)
  = [lit "FILE: " ++ tr_filename r]
  /\ filter (startswith DELIMITER) (section_lines r) = [DELIMITER].
Proof.
  intros Hp. unfold section_lines. rewrite !filter_app.
  rewrite (filter_plain_lines _ _ plain_not_header Hp).
  rewrite (filter_plain_lines _ _ plain_not_delimiter Hp).
  destruct (tr_duration r) as [d|]; split; reflexivity.
Qed.

(** C5 (the claim fails here).  Three files, the second failing and the
    two others transcribed to a non-empty text, the first text dictating a
    line that starts with [FILE:]: the report holds three lines that start
    with [FILE:], and the parser reads three records from it. *)
Lemma partial_failure_three_file_lines :
  let a := @init quoting_backend in
  let o := @transcribe_options quoting_backend None in
  let report :=
    snd (transcribe_handler a
           (Some [lit "/in/a.wav"; lit "/in/bad.wav"; lit "/in/c.wav"])
           None None (lit "base")) in
  quoting_transcribe 0 (lit "/in/a.wav") o
  = Return {| r_text := Some (lit "hello" ++ [NL] ++ lit "FILE: evil.wav");
              r_language := Some (lit "en"); r_segments := None |}
  /\ quoting_transcribe 0 (lit "/in/bad.wav") o = Raise (lit "corrupt audio")
  /\ quoting_transcribe 0 (lit "/in/c.wav") o
     = Return {| r_text := Some (lit "world");
                 r_language := Some (lit "en"); r_segments := None |}
  /\ count_lines_starting (lit "FILE:") report = 3%nat
  /\ map (fun row => nth 0 row []) (df_data (parse_records report))
     = [lit "a.wav"; lit "evil.wav"; lit "c.wav"].
Proof. repeat split; vm_compute; reflexivity. Qed.

Section PartialFailure.
Context `{B : Backend}.

(** C5 (amended).  A batch of three files in which the recognition of the
    second raises an error and the two others return a non-empty text made
    of plain lines, with one-line file names, languages and model
    identifier: the first line of the report is the summary counting 2, the
    lines that start with [FILE:] are exactly two, those of the first and of
    the third file in that order, the rule lines are exactly two, and the
    parser reads back two records, with the names and texts of those two
    files. *)
Theorem partial_failure_two_sections
    (a : App) (p1 p2 p3 : str) (language : option str) (name : str)
    (m : Model) (r1 r3 : Result) (e : Exn) :
  model_in_use a name = Some m ->
  model_transcribe m p1 (transcribe_options language) = Return r1 ->
  get_text r1 <> [] ->
  model_transcribe m p2 (transcribe_options language) = Raise e ->
  model_transcribe m p3 (transcribe_options language) = Return r3 ->
  get_text r3 <> [] ->
  readable (result_of p1 r1 name) ->
  readable (result_of p3 r3 name) ->
  let report :=
    snd (transcribe_handler a (Some [p1; p2; p3]) None language name) in
  nth 0 (split_on NL report) []
  = OK_GLYPH ++ lit " Processed 2 files successfully"
  /\ filter (startswith (lit "FILE:")) (split_on NL report)
     = [lit "FILE: " ++ basename p1; lit "FILE: " ++ basename p3]
  /\ filter (startswith DELIMITER) (split_on NL report)
     = [DELIMITER; DELIMITER]
  /\ map (firstn 2) (df_data (parse_records report))
     = [ [strip (basename p1); strip (get_text r1)];
         [strip (basename p3); strip (get_text r3)] ].
Proof.
  intros Hm H1 T1 H2 H3 T3 R1 R3 report.
  set (R := [result_of p1 r1 name; result_of p3 r3 name]).
  assert (HR : Forall readable R)
    by (apply Forall_cons; [exact R1|apply Forall_cons; [exact R3|apply Forall_nil]]).
  assert (Hrep : report = format_batch (map item_of R)).
  { subst report.
    rewrite (handler_partial_failure_report a p1 p2 p3 language name m r1 r3 e
               Hm H1 T1 H2 H3 T3).
    rewrite format_batch_sections. unfold R. cbn [map concat length].
    now rewrite app_nil_r. }
  destruct R1 as [_ [_ [_ P1]]]. destruct R3 as [_ [_ [_ P3]]].
  destruct (section_marker_lines _ P1) as [F1 D1].
  destruct (section_marker_lines _ P3) as [F3 D3].
  rewrite Hrep, (report_lines R HR).
  split; [reflexivity|]. split; [|split].
  - cbn [filter].
    change (startswith (lit "FILE:")
              (SUMMARY_PREFIX ++ SP :: decimal (N.of_nat (length (map item_of R)))
               ++ lit " files successfully")) with false.
    change (startswith (lit "FILE:") []) with false. cbv iota.
    subst R. cbn [map concat]. rewrite !filter_app, F1, F3. reflexivity.
  - cbn [filter].
    change (startswith DELIMITER
              (SUMMARY_PREFIX ++ SP :: decimal (N.of_nat (length (map item_of R)))
               ++ lit " files successfully")) with false.
    change (startswith DELIMITER []) with false. cbv iota.
    subst R. cbn [map concat]. rewrite !filter_app, D1, D3. reflexivity.
  - change (df_data (parse_records (format_batch (map item_of R))))
      with (roundtrip R).
    rewrite (roundtrip_rows R HR). reflexivity.
Qed.

End PartialFailure.

Lemma partial_failure_two_sections_witness :
  let r := {| r_text := Some (lit " hello"); r_language := Some (lit "en");
              r_segments := Some [ {| seg_end := 123%Z |} ] |} in
  let report :=
    snd (transcribe_handler (@init sample_backend)
           (Some [lit "/in/a.wav"; lit "/in/bad.wav"; lit "/in/c.wav"])
           None None (lit "base")) in
  readable (result_of (lit "/in/a.wav") r (lit "base"))
  /\ filter (startswith (lit "FILE:")) (split_on NL report)
     = [lit "FILE: a.wav"; lit "FILE: c.wav"]
  /\ nth 0 (split_on NL report) []
     = OK_GLYPH ++ lit " Processed 2 files successfully".
Proof.
  intros r report.
  assert (Hne : get_text r <> []) by discriminate.
  assert (Ha : readable (result_of (lit "/in/a.wav") r (lit "base")))
    by (repeat split; try (apply not_in_by_scan; reflexivity)).
  assert (Hc : readable (result_of (lit "/in/c.wav") r (lit "base")))
    by (repeat split; try (apply not_in_by_scan; reflexivity)).
  pose proof (@partial_failure_two_sections sample_backend (@init sample_backend)
                (lit "/in/a.wav") (lit "/in/bad.wav") (lit "/in/c.wav")
                None (lit "base") 0%nat r r (lit "corrupt audio")
                eq_refl eq_refl Hne eq_refl eq_refl Hne Ha Hc) as H.
  split; [exact Ha|]. split.
  - exact (proj1 (proj2 H)).
  - exact (proj1 H).
Defined.

(** A text with a lone surrogate: the title and the rule are written, the
    write of the text raises, and [None] is returned. *)
Example export_of_surrogate_text :
  export_transcription empty_disk sample_host surrogate_text (lit "transcription")
  = ({| dirs := [lit "/tmp/tmpabc"];
        files := [(lit "/tmp/tmpabc/transcription_20240102_030405.txt",
                   lit "Transcription - 2024-01-02 03:04:05" ++ [NL]
                   ++ times 61 50 ++ [NL; NL])] |},
     None).
Proof. vm_compute. reflexivity. Qed.
